(** * Verification of the caching and metrics layer of the ML encoder service

    Shallow embedding of [models-service/cache_manager.py] ([LRUCache],
    [CacheManager], [cached_encode]) and of [models-service/metrics.py]
    ([MetricsCollector]).

    Conventions of the embedding:
    - Python ints are [Z].
    - Readings of [time.time()] are supplied by the caller as an integer
      clock value [now : Z] (an injectable clock); one reading per
      operation.
    - Python floats that matter for a claim (the hit rate of
      [get_stats]) are modelled as positive binary64 values [f64] with
      round-to-nearest-even arithmetic (normal range only).
    - An [OrderedDict] is an association list in iteration order whose
      keys are pairwise distinct; the plain dicts [_timestamps] and
      [_ttls] are stdpp [gmap]s. *)

From Stdlib Require Import ZArith Bool Lia QArith Qround Lqa.
From Stdlib Require Import Sorting.Permutation Sorting.Sorted.
From Stdlib Require Import Strings.String Strings.Ascii.
From stdpp Require Import base gmap strings list.

Open Scope Z_scope.

(* ------------------------------------------------------------------ *)
(** ** Binary64 floating point (positive, normal range) *)

Module F64.

(** A float is [num * 2 ^ exp]. *)
Record f64 := mkF64 { num : Z; exp : Z }.

Definition zero : f64 := mkF64 0 0.

(** Exact value of a float as a fraction [(p, q)] with [q > 0]. *)
Definition frac (x : f64) : Z * Z :=
  if 0 <=? exp x then (num x * 2 ^ exp x, 1) else (num x, 2 ^ (- exp x)).

(** Equality of the exact values (Python's float [==]). *)
Definition feqb (x y : f64) : bool :=
  let '(p1, q1) := frac x in let '(p2, q2) := frac y in p1 * q2 =? p2 * q1.

(** Round the fraction [a / b] ([b > 0]) to an integer, ties to even. *)
Definition round_half_even (a b : Z) : Z :=
  let d := a / b in
  let r := a mod b in
  if 2 * r <? b then d
  else if b <? 2 * r then d + 1
  else if Z.even d then d else d + 1.

(** [p / q >= 2 ^ k]. *)
Definition ge_pow2 (p q k : Z) : bool :=
  if 0 <=? k then q * 2 ^ k <=? p else q <=? p * 2 ^ (- k).

(** Correctly rounded binary64 value of the fraction [p / q]
    ([p >= 0], [q > 0]): 53-bit significand, ties to even. *)
Definition of_frac (p q : Z) : f64 :=
  if p <=? 0 then zero else
  let k0 := Z.log2 p - Z.log2 q in
  let k := if ge_pow2 p q k0 then k0 else k0 - 1 in
  let e := k - 52 in
  let a := if 0 <=? e then p else p * 2 ^ (- e) in
  let b := if 0 <=? e then q * 2 ^ e else q in
  mkF64 (round_half_even a b) e.

(** [int / int] (Python true division of ints is correctly rounded). *)
Definition div_int (a b : Z) : f64 := of_frac a b.

(** [float * int]. *)
Definition mul_int (x : f64) (n : Z) : f64 :=
  let '(p, q) := frac x in of_frac (p * n) q.

(** [round(x, 2)] on a float: CPython rounds the exact binary value to
    two decimals with ties to even, then reads the decimal back as the
    nearest float. *)
Definition round2 (x : f64) : f64 :=
  let '(p, q) := frac x in of_frac (round_half_even (p * 100) q) 100.

End F64.

(* ------------------------------------------------------------------ *)
(** ** [LRUCache] *)

Module LRU.
Import F64.

Inductive exc := StopIteration.

Inductive outcome (A : Type) := Ok (a : A) | Raise (e : exc).
Arguments Ok {A} a.
Arguments Raise {A} e.

Section WithValue.
Variable V : Type.

(** [OrderedDict] operations on the association list. *)
Definition od_mem (k : string) (c : list (string * V)) : bool :=
  existsb (fun p => String.eqb (fst p) k) c.

Fixpoint od_lookup (k : string) (c : list (string * V)) : option V :=
  match c with
  | [] => None
  | (k', v) :: c' => if String.eqb k' k then Some v else od_lookup k c'
  end.

(** [od.pop(k, None)] *)
Definition od_pop (k : string) (c : list (string * V)) : list (string * V) :=
  List.filter (fun p => negb (String.eqb (fst p) k)) c.

(** [od[k] = v]: replaces in place an existing key, appends a new one. *)
Definition od_setitem (k : string) (v : V) (c : list (string * V)) : list (string * V) :=
  if od_mem k c then map (fun p => if String.eqb (fst p) k then (k, v) else p) c
  else c ++ [(k, v)].

(** [od.move_to_end(k)] (only called on a present key). *)
Definition od_move_to_end (k : string) (c : list (string * V)) : list (string * V) :=
  match od_lookup k c with
  | Some v => od_pop k c ++ [(k, v)]
  | None => c
  end.

Record LRUCache := mkLRU {
  cache : list (string * V);        (* self._cache (OrderedDict) *)
  timestamps : gmap string Z;       (* self._timestamps *)
  ttls : gmap string Z;             (* self._ttls *)
  max_size : Z;                     (* self._max_size *)
  default_ttl : Z;                  (* self._default_ttl *)
  hits : Z;                         (* self._hits *)
  misses : Z                        (* self._misses *)
}.

(** [LRUCache.__init__] *)
Definition init (max_size default_ttl : Z) : LRUCache :=
  mkLRU [] ∅ ∅ max_size default_ttl 0 0.

Definition with_store (s : LRUCache) (c : list (string * V)) (ts tl : gmap string Z) : LRUCache :=
  mkLRU c ts tl (max_size s) (default_ttl s) (hits s) (misses s).

Definition with_counters (s : LRUCache) (h m : Z) : LRUCache :=
  mkLRU (cache s) (timestamps s) (ttls s) (max_size s) (default_ttl s) h m.

(** [_is_expired] *)
Definition is_expired (s : LRUCache) (key : string) (now : Z) : bool :=
  match timestamps s !! key with
  | None => true
  | Some t =>
      let ttl := match ttls s !! key with Some l => l | None => default_ttl s end in
      ttl <? now - t
  end.

(** [_remove] *)
Definition remove (s : LRUCache) (key : string) : LRUCache :=
  with_store s (od_pop key (cache s)) (delete key (timestamps s)) (delete key (ttls s)).

(** [get]: returns the new state and the result. *)
Definition get (s : LRUCache) (key : string) (now : Z) : LRUCache * option V :=
  if negb (od_mem key (cache s)) then
    (with_counters s (hits s) (misses s + 1), None)
  else if is_expired s key now then
    let s' := remove s key in
    (with_counters s' (hits s') (misses s' + 1), None)
  else
    let c := od_move_to_end key (cache s) in
    (with_counters (with_store s c (timestamps s) (ttls s)) (hits s + 1) (misses s),
     od_lookup key c).

(** The eviction loop of [set]:
    [while len(self._cache) >= self._max_size:
       oldest_key = next(iter(self._cache)); self._remove(oldest_key)].
    [next] on an empty dict raises [StopIteration].  The keys of an
    [OrderedDict] are distinct, so popping the first key leaves the tail. *)
Fixpoint evict_loop (mx : Z) (c : list (string * V)) (ts tl : gmap string Z)
  : list (string * V) * gmap string Z * gmap string Z * outcome unit :=
  if mx <=? Z.of_nat (length c) then
    match c with
    | [] => (c, ts, tl, Raise StopIteration)
    | (oldest_key, _) :: rest => evict_loop mx rest (delete oldest_key ts) (delete oldest_key tl)
    end
  else (c, ts, tl, Ok tt).

(** [set]: the state reached (also when an exception escapes) and the
    outcome. *)
Definition set (s : LRUCache) (key : string) (value : V) (ttl : option Z) (now : Z)
  : LRUCache * outcome unit :=
  let s1 := if od_mem key (cache s) then remove s key else s in
  match evict_loop (max_size s1) (cache s1) (timestamps s1) (ttls s1) with
  | (c, ts, tl, Raise e) => (with_store s1 c ts tl, Raise e)
  | (c, ts, tl, Ok _) =>
      let ttl' := match ttl with Some l => l | None => default_ttl s1 end in
      (with_store s1 (od_setitem key value c) (<[key := now]> ts) (<[key := ttl']> tl), Ok tt)
  end.

(** [clear] *)
Definition clear (s : LRUCache) : LRUCache := with_store s [] ∅ ∅.

(** [cleanup_expired]: the expired keys are collected first, then removed. *)
Definition cleanup_expired (s : LRUCache) (now : Z) : LRUCache :=
  let expired_keys := List.filter (fun k => is_expired s k now) (map fst (cache s)) in
  fold_left remove expired_keys s.

Record stats := mkStats {
  st_size : Z; st_max_size : Z; st_hits : Z; st_misses : Z; st_hit_rate_percent : f64 }.

(** [get_stats]: [hit_rate = (hits / total * 100) if total > 0 else 0]. *)
Definition get_stats (s : LRUCache) : stats :=
  let total := hits s + misses s in
  let hit_rate := if 0 <? total then mul_int (div_int (hits s) total) 100 else zero in
  mkStats (Z.of_nat (length (cache s))) (max_size s) (hits s) (misses s) (round2 hit_rate).

(** Operations on one cache, for sequences of calls. *)
Inductive op :=
| OGet (key : string) (now : Z)
| OSet (key : string) (value : V) (ttl : option Z) (now : Z)
| OClear
| OCleanup (now : Z).

Definition step (s : LRUCache) (o : op) : LRUCache :=
  match o with
  | OGet k now => fst (get s k now)
  | OSet k v ttl now => fst (set s k v ttl now)
  | OClear => clear s
  | OCleanup now => cleanup_expired s now
  end.

Definition run (s : LRUCache) (ops : list op) : LRUCache := fold_left step ops s.

(** The dict keys are distinct and [_cache], [_timestamps] and [_ttls]
    hold the same keys. *)
Definition wf (s : LRUCache) : Prop :=
  List.NoDup (map fst (cache s)) /\
  (forall k, In k (map fst (cache s)) <-> is_Some (timestamps s !! k)) /\
  (forall k, In k (map fst (cache s)) <-> is_Some (ttls s !! k)).

Definition within_capacity (s : LRUCache) : Prop :=
  Z.of_nat (length (cache s)) <= Z.max 0 (max_size s).

(** The state [set] starts the eviction loop from. *)
Definition set_prepare (s : LRUCache) (key : string) : LRUCache :=
  if od_mem key (cache s) then remove s key else s.

End WithValue.

(** Deleting a list of keys from a map. *)
Definition delete_all (ks : list string) (m : gmap string Z) : gmap string Z :=
  fold_left (fun m k => delete k m) ks m.


Arguments od_mem {V} k c.
Arguments od_lookup {V} k c.
Arguments od_pop {V} k c.
Arguments od_setitem {V} k v c.
Arguments od_move_to_end {V} k c.
Arguments mkLRU {V}.
Arguments cache {V} _.
Arguments timestamps {V} _.
Arguments ttls {V} _.
Arguments max_size {V} _.
Arguments default_ttl {V} _.
Arguments hits {V} _.
Arguments misses {V} _.
Arguments init {V} max_size default_ttl.
Arguments with_store {V} s c ts tl.
Arguments with_counters {V} s h m.
Arguments is_expired {V} s key now.
Arguments remove {V} s key.
Arguments get {V} s key now.
Arguments evict_loop {V} mx c ts tl.
Arguments set {V} s key value ttl now.
Arguments clear {V} s.
Arguments cleanup_expired {V} s now.
Arguments get_stats {V} s.
Arguments OGet {V} key now.
Arguments OSet {V} key value ttl now.
Arguments OClear {V}.
Arguments OCleanup {V} now.
Arguments step {V} s o.
Arguments run {V} s ops.
Arguments wf {V} s.
Arguments within_capacity {V} s.
Arguments set_prepare {V} s key.

(** Recency bookkeeping over a sequence of calls: [touches o k] holds when
    the call [o] is a [get] or a [set] of the key [k]; [last_touch ops k] is
    the 1-based position in [ops] of the last call touching [k] (0 if none). *)
Definition touches {V} (o : op V) (k : string) : bool :=
  match o with
  | OGet k' _ => String.eqb k' k
  | OSet k' _ _ _ => String.eqb k' k
  | OClear => false
  | OCleanup _ => false
  end.

Fixpoint touch_scan {V} (i t : nat) (ops : list (op V)) (k : string) : nat :=
  match ops with
  | [] => t
  | o :: ops' => touch_scan (S i) (if touches o k then S i else t) ops' k
  end.

Definition last_touch {V} (ops : list (op V)) (k : string) : nat := touch_scan 0 0 ops k.

(** Entries of a reachable cache in recency order. *)
Definition recency_sorted {V} (ops : list (op V)) (c : list (string * V)) : Prop :=
  StronglySorted (fun a b => (last_touch ops (fst a) < last_touch ops (fst b))%nat) c.

(** All stored entries were written at [now] with ttl [dttl]. *)
Definition uniform {V} (now dttl : Z) (s : LRUCache V) : Prop :=
  (forall k t, timestamps s !! k = Some t -> t = now) /\
  (forall k l, ttls s !! k = Some l -> l = dttl) /\ default_ttl s = dttl.

(** [set(k, v)] for each entry in turn, all at time [now]. *)
Definition set_all_at {V} (now : Z) (entries : list (string * V)) : list (op V) :=
  map (fun '(k, v) => OSet k v None now) entries.


End LRU.

(* ------------------------------------------------------------------ *)
(** ** [hashlib.sha256(...).hexdigest()] *)

Module SHA256.

(** Bytes are integers in [0, 256), 32-bit words integers in [0, 2^32). *)
Definition w32 (x : Z) : Z := Z.land x (Z.ones 32).
Definition rotr (x n : Z) : Z := Z.lor (Z.shiftr x n) (w32 (Z.shiftl x (32 - n))).
Definition ch (e f g : Z) : Z := Z.lxor (Z.land e f) (Z.land (Z.lxor e (Z.ones 32)) g).
Definition maj (a b c : Z) : Z := Z.lxor (Z.land a b) (Z.lxor (Z.land a c) (Z.land b c)).
Definition bsig0 (a : Z) : Z := Z.lxor (rotr a 2) (Z.lxor (rotr a 13) (rotr a 22)).
Definition bsig1 (e : Z) : Z := Z.lxor (rotr e 6) (Z.lxor (rotr e 11) (rotr e 25)).
Definition ssig0 (x : Z) : Z := Z.lxor (rotr x 7) (Z.lxor (rotr x 18) (Z.shiftr x 3)).
Definition ssig1 (x : Z) : Z := Z.lxor (rotr x 17) (Z.lxor (rotr x 19) (Z.shiftr x 10)).

(** FIPS 180-4 constants: the first 32 bits of the fractional parts of
    the cube roots of the first 64 primes ([K]) and of the square roots of
    the first 8 primes ([H0]). *)
Definition is_prime (n : Z) : bool :=
  (1 <? n) && forallb (fun d => negb (n mod d =? 0)) (map Z.of_nat (seq 2 (Z.to_nat n - 2))).

Definition first_primes (k : nat) : list Z :=
  firstn k (List.filter is_prime (map Z.of_nat (seq 2 400))).

(** The largest [r] in [[lo, hi)] with [r ^ 3 <= x], by bisection. *)
Fixpoint icbrt_between (fuel : nat) (x lo hi : Z) : Z :=
  match fuel with
  | O => lo
  | S f =>
      if hi - lo <=? 1 then lo else
      let mid := (lo + hi) / 2 in
      if mid ^ 3 <=? x then icbrt_between f x mid hi else icbrt_between f x lo mid
  end.

Definition icbrt (x : Z) : Z := icbrt_between 256 x 0 (x + 1).

Definition K : list Z :=
  Eval vm_compute in map (fun p => icbrt (p * 2 ^ 96) mod 2 ^ 32) (first_primes 64).

Record hstate := mkH { ha : Z; hb : Z; hc : Z; hd : Z; he : Z; hf : Z; hg : Z; hh : Z }.

Definition H0 : hstate :=
  Eval vm_compute in
  match map (fun p => Z.sqrt (p * 2 ^ 64) mod 2 ^ 32) (first_primes 8) with
  | [a; b; c; d; e; f; g; h] => mkH a b c d e f g h
  | _ => mkH 0 0 0 0 0 0 0 0
  end.

(** Big-endian word of a list of bytes. *)
Definition be_word (bs : list Z) : Z := fold_left (fun acc b => acc * 256 + b) bs 0.

Fixpoint words (n : nat) (bs : list Z) : list Z :=
  match n with
  | O => []
  | S n' => be_word (firstn 4 bs) :: words n' (skipn 4 bs)
  end.

(** Message schedule: extends the 16 words of a block by [n] words. *)
Fixpoint schedule (n : nat) (w : list Z) : list Z :=
  match n with
  | O => w
  | S n' =>
      let t := List.length w in
      let x := w32 (ssig1 (nth (t - 2) w 0) + nth (t - 7) w 0 +
                    ssig0 (nth (t - 15) w 0) + nth (t - 16) w 0) in
      schedule n' (w ++ [x])
  end.

Definition round (s : hstate) (kw : Z * Z) : hstate :=
  let '(k, w) := kw in
  let t1 := w32 (hh s + bsig1 (he s) + ch (he s) (hf s) (hg s) + k + w) in
  let t2 := w32 (bsig0 (ha s) + maj (ha s) (hb s) (hc s)) in
  mkH (w32 (t1 + t2)) (ha s) (hb s) (hc s) (w32 (hd s + t1)) (he s) (hf s) (hg s).

Definition add_state (x y : hstate) : hstate :=
  mkH (w32 (ha x + ha y)) (w32 (hb x + hb y)) (w32 (hc x + hc y)) (w32 (hd x + hd y))
      (w32 (he x + he y)) (w32 (hf x + hf y)) (w32 (hg x + hg y)) (w32 (hh x + hh y)).

Definition compress (s : hstate) (block : list Z) : hstate :=
  add_state s (fold_left round (combine K (schedule 48 (words 16 block))) s).

(** The [n] low bytes of [x], most significant first. *)
Definition be_bytes (n : nat) (x : Z) : list Z :=
  map (fun i => Z.land (Z.shiftr x (8 * Z.of_nat (n - 1 - i))) 255) (seq 0 n).

Definition pad (msg : list Z) : list Z :=
  let l := Z.of_nat (List.length msg) in
  msg ++ [128] ++ repeat 0 (Z.to_nat ((55 - l) mod 64)) ++ be_bytes 8 (8 * l).

Fixpoint process (fuel : nat) (s : hstate) (bs : list Z) : hstate :=
  match fuel with
  | O => s
  | S f =>
      match bs with
      | [] => s
      | _ => process f (compress s (firstn 64 bs)) (skipn 64 bs)
      end
  end.

(** [hashlib.sha256(msg).digest()] *)
Definition sha256 (msg : list Z) : list Z :=
  let p := pad msg in
  let s := process (List.length p) H0 p in
  flat_map (be_bytes 4) [ha s; hb s; hc s; hd s; he s; hf s; hg s; hh s].

Definition chr (n : Z) : string := String (ascii_of_nat (Z.to_nat n)) EmptyString.

Definition hex_digit (n : Z) : string := chr (if n <? 10 then 48 + n else 87 + n).

(** [.hexdigest()]: two lowercase hex digits per byte. *)
Fixpoint hexdigest (bs : list Z) : string :=
  match bs with
  | [] => EmptyString
  | b :: bs' => String.append (hex_digit (b / 16)) (String.append (hex_digit (b mod 16)) (hexdigest bs'))
  end.

(** The characters [hexdigest] can produce. *)
Definition hex_chars : list ascii := list_ascii_of_string "0123456789abcdef".

End SHA256.

(* ------------------------------------------------------------------ *)
(** ** Python values, [str], [json.dumps(..., sort_keys=True)] and
    [str.encode()]

    A Python [str] is a Rocq [string] whose characters are code points
    below 256.  The values covered are [None], [bool], [int], [str],
    [list] and [dict] with [str] keys (floats are not modelled). *)

Module PyData.
Import SHA256.

#[local] Set Warnings "-register-all".
Inductive pyval :=
| PNone
| PBool (b : bool)
| PInt (z : Z)
| PStr (s : string)
| PList (l : list pyval)
| PDict (d : list (string * pyval)).

Local Open Scope string_scope.
Local Open Scope Z_scope.

Fixpoint digits (fuel : nat) (n : Z) (acc : string) : string :=
  match fuel with
  | O => acc
  | S f =>
      let acc' := String.append (chr (48 + n mod 10)) acc in
      if n <? 10 then acc' else digits f (n / 10) acc'
  end.

(** [str(z)] (also [int.__repr__], used by [json.dumps]). *)
Definition int_repr (z : Z) : string :=
  if z <? 0 then String.append "-" (digits (S (Z.to_nat (Z.log2 (- z)))) (- z) "")
  else digits (S (Z.to_nat (Z.log2 z))) z "".

(** [py_encode_basestring_ascii] ([ensure_ascii=True]): escapes the
    backslash, the quote, the control characters and everything outside
    the printable ASCII range. *)
Definition escape_char (c : ascii) : string :=
  let n := Z.of_nat (nat_of_ascii c) in
  let bs := chr 92 in
  if n =? 92 then String.append bs bs
  else if n =? 34 then String.append bs (chr 34)
  else if n =? 8 then String.append bs "b"
  else if n =? 12 then String.append bs "f"
  else if n =? 10 then String.append bs "n"
  else if n =? 13 then String.append bs "r"
  else if n =? 9 then String.append bs "t"
  else if orb (n <? 32) (126 <? n)
  then String.append bs (String.append "u00" (String.append (hex_digit (n / 16)) (hex_digit (n mod 16))))
  else String c EmptyString.

Fixpoint escape (s : string) : string :=
  match s with
  | EmptyString => ""
  | String c s' => String.append (escape_char c) (escape s')
  end.

Definition json_str (s : string) : string := String.append (chr 34) (String.append (escape s) (chr 34)).

(** [sort_keys=True] sorts the items by key, in code point order. *)
Definition key_lt (a b : string) : bool :=
  match String.compare a b with Lt => true | _ => false end.

Fixpoint insert_item (x : string * string) (l : list (string * string)) : list (string * string) :=
  match l with
  | [] => [x]
  | y :: l' => if key_lt (fst y) (fst x) then y :: insert_item x l' else x :: l
  end.

Definition sort_items (l : list (string * string)) : list (string * string) :=
  fold_right insert_item [] l.

Definition render_item (kr : string * string) : string :=
  String.append (json_str (fst kr)) (String.append ": " (snd kr)).

(** [json.dumps(v, sort_keys=True)] with the default separators. *)
Fixpoint json_dumps (v : pyval) : string :=
  match v with
  | PNone => "null"
  | PBool true => "true"
  | PBool false => "false"
  | PInt z => int_repr z
  | PStr s => json_str s
  | PList l => String.append "[" (String.append (String.concat ", " (map json_dumps l)) "]")
  | PDict d =>
      String.append "{"
        (String.append
           (String.concat ", "
              (map render_item (sort_items (map (fun '(k, x) => (k, json_dumps x)) d))))
           "}")
  end.

(** [str(v)] for the values that are not dicts or lists. *)
Definition py_str (v : pyval) : string :=
  match v with
  | PNone => "None"
  | PBool true => "True"
  | PBool false => "False"
  | PInt z => int_repr z
  | PStr s => s
  | PList _ | PDict _ => json_dumps v
  end.

(** [str.encode()]: UTF-8 of code points below 256. *)
Definition utf8_char (c : ascii) : list Z :=
  let n := Z.of_nat (nat_of_ascii c) in
  if n <? 128 then [n] else [192 + n / 64; 128 + n mod 64].

Fixpoint encode (s : string) : list Z :=
  match s with
  | EmptyString => []
  | String c s' => utf8_char c ++ encode s'
  end.

End PyData.

(* ------------------------------------------------------------------ *)
(** ** [MetricsCollector]

    The fields the claims read: the active and peak request counts, the
    latency and inference time series and the cache counters.  The request,
    status and error counters and the throughput window are not modelled.
    Latencies are rationals (every float is one); the lock makes each method
    atomic, so a method is one step. *)

Module Metrics.
Import F64.

Record collector := mkCollector {
  active_requests : Z;                      (* self._active_requests *)
  peak_active_requests : Z;                 (* self._peak_active_requests *)
  latencies : gmap string (list Q);         (* self._latencies *)
  inference_times : gmap string (list Q);   (* self._inference_times *)
  cache_hits : Z;                           (* self._cache_hits *)
  cache_misses : Z                          (* self._cache_misses *)
}.

Definition max_latency_samples : nat := 1000.

Definition collector_init : collector := mkCollector 0 0 ∅ ∅ 0 0.

(** Reading a [defaultdict(list)]. *)
Definition series (k : string) (m : gmap string (list Q)) : list Q :=
  match m !! k with Some l => l | None => [] end.

(** [d[k].append(x)] *)
Definition append_sample (k : string) (x : Q) (m : gmap string (list Q)) : gmap string (list Q) :=
  <[k := series k m ++ [x]]> m.

(** [if len(d[k]) > max: d[k] = d[k][-max:]] *)
Definition trim (k : string) (m : gmap string (list Q)) : gmap string (list Q) :=
  let l := series k m in
  if Nat.ltb max_latency_samples (length l)
  then <[k := skipn (length l - max_latency_samples) l]> m
  else m.

(** Every stored series holds at most [_max_latency_samples] samples. *)
Definition capped (m : gmap string (list Q)) : Prop :=
  forall k, (length (series k m) <= max_latency_samples)%nat.

Definition record_request_start (m : collector) : collector :=
  let a := active_requests m + 1 in
  mkCollector a (Z.max (peak_active_requests m) a)
    (latencies m) (inference_times m) (cache_hits m) (cache_misses m).

Definition record_request_end (m : collector) (endpoint : string) (status_code : Z)
    (latency_ms : Q) : collector :=
  let l1 := append_sample endpoint latency_ms (latencies m) in
  let l2 := append_sample "all" latency_ms l1 in
  let l3 := trim endpoint l2 in
  let l4 := trim "all" l3 in
  mkCollector (Z.max 0 (active_requests m - 1)) (peak_active_requests m)
    l4 (inference_times m) (cache_hits m) (cache_misses m).

Definition record_inference_time (m : collector) (model_type : string) (time_ms : Q) : collector :=
  mkCollector (active_requests m) (peak_active_requests m) (latencies m)
    (trim model_type (append_sample model_type time_ms (inference_times m)))
    (cache_hits m) (cache_misses m).

Definition record_cache_hit (m : collector) : collector :=
  mkCollector (active_requests m) (peak_active_requests m) (latencies m)
    (inference_times m) (cache_hits m + 1) (cache_misses m).

Definition record_cache_miss (m : collector) : collector :=
  mkCollector (active_requests m) (peak_active_requests m) (latencies m)
    (inference_times m) (cache_hits m) (cache_misses m + 1).

Definition reset (m : collector) : collector := mkCollector 0 0 ∅ ∅ 0 0.

Inductive mop :=
| MStart
| MEnd (endpoint : string) (status_code : Z) (latency_ms : Q)
| MInference (model_type : string) (time_ms : Q)
| MHit
| MMiss
| MReset.

Definition mstep (m : collector) (o : mop) : collector :=
  match o with
  | MStart => record_request_start m
  | MEnd ep sc lat => record_request_end m ep sc lat
  | MInference mt t => record_inference_time m mt t
  | MHit => record_cache_hit m
  | MMiss => record_cache_miss m
  | MReset => reset m
  end.

Definition mrun (m : collector) (ops : list mop) : collector := fold_left mstep ops m.

(** The active count after each prefix of a sequence of calls, from [m]. *)
Definition active_trace (m : collector) (ops : list mop) : list Z :=
  map (fun i => active_requests (mrun m (firstn i ops))) (seq 0 (S (length ops))).

(** [sorted(data)]: insertion sort, stable like Python's sort. *)
Fixpoint insert_sample (x : Q) (l : list Q) : list Q :=
  match l with
  | [] => [x]
  | y :: l' => if Qle_bool x y then x :: l else y :: insert_sample x l'
  end.

Definition sorted_samples (l : list Q) : list Q := fold_right insert_sample [] l.

(** [l[i]]: negative indices count from the end; [None] is an
    [IndexError]. *)
Definition py_index (l : list Q) (i : Z) : option Q :=
  let n := Z.of_nat (length l) in
  if 0 <=? i then nth_error l (Z.to_nat i)
  else if - n <=? i then nth_error l (Z.to_nat (n + i))
  else None.

(** The float literals [0.5], [0.95] and [0.99]. *)
Definition f_half : f64 := of_frac 1 2.
Definition f_95 : f64 := of_frac 95 100.
Definition f_99 : f64 := of_frac 99 100.

(** [int(x)] on a float: truncation. *)
Definition int_of (x : f64) : Z := let '(p, q) := frac x in Z.quot p q.

Record summary := mkSummary {
  s_avg : Q; s_min : Q; s_max : Q; s_p50 : Q; s_p95 : Q; s_p99 : Q }.

(** [_calculate_percentiles]; [n * 0.95] is the float product of [float(n)]
    (exact for these sizes) and the literal.  The average is the exact
    rational one, not the float [sum(data) / n] (no theorem reads it). *)
Definition calculate_percentiles (data : list Q) : option summary :=
  match data with
  | [] => Some (mkSummary 0 0 0 0 0 0)
  | _ =>
      let sorted_data := sorted_samples data in
      let n := Z.of_nat (length sorted_data) in
      match py_index sorted_data 0, py_index sorted_data (-1),
            py_index sorted_data (int_of (mul_int f_half n)),
            (if 20 <=? n then py_index sorted_data (int_of (mul_int f_95 n))
             else py_index sorted_data (-1)),
            (if 100 <=? n then py_index sorted_data (int_of (mul_int f_99 n))
             else py_index sorted_data (-1)) with
      | Some mn, Some mx, Some a50, Some a95, Some a99 =>
          Some (mkSummary (fold_left Qplus data 0%Q / inject_Z n) mn mx a50 a95 a99)
      | _, _, _, _, _ => None
      end
  end.

End Metrics.

(* ------------------------------------------------------------------ *)
(** ** [CacheManager], [get_cache] and [cached_encode] *)

Module Manager.
Import LRU SHA256 PyData Metrics.

Local Open Scope string_scope.
Local Open Scope Z_scope.

(** The configuration dict: [max_size], [ttl] and [enabled] (a bool). *)
Record config := mkConfig { cfg_max_size : option Z; cfg_ttl : option Z; cfg_enabled : option bool }.

Definition opt_default {A} (d : A) (o : option A) : A :=
  match o with Some x => x | None => d end.

(** [_generate_cache_key]; [PList] is a Python [list] here (a tuple is
    not an instance of [(dict, list)] and would go through [str]). *)
Definition serialize (data : pyval) : string :=
  match data with
  | PList _ | PDict _ => json_dumps data
  | _ => py_str data
  end.

Definition combined_input (encoder_type : string) (data : pyval) : string :=
  String.append encoder_type (String.append ":" (serialize data)).

Definition generate_cache_key (encoder_type : string) (data : pyval) : string :=
  substring 0 32 (hexdigest (sha256 (encode (combined_input encoder_type data)))).

(** Exceptions: [StopIteration] from an [LRUCache], or one raised by the
    wrapped encode function. *)
Inductive pyexc := LRUError (e : exc) | UserError (name : string).

Inductive py_result (A : Type) := Returned (a : A) | Raised (e : pyexc).
Arguments Returned {A} a.
Arguments Raised {A} e.

Inductive event := ECall (data : pyval) | ESetEmbedding.

Section WithValue.
Context {V : Type}.

Record manager := mkManager {
  caches : gmap string (LRUCache V);   (* self._caches *)
  enabled : bool                       (* self._enabled *)
}.

(** [CacheManager.__init__]: [config = config or {}]. *)
Definition manager_init (config : option config) : manager :=
  let cfg := opt_default (mkConfig None None None) config in
  let max_size := opt_default 1000 (cfg_max_size cfg) in
  let ttl := opt_default 3600 (cfg_ttl cfg) in
  mkManager
    (<["motion" := init max_size ttl]> (<["gesture" := init max_size ttl]>
       (<["typing" := init max_size ttl]> ∅)))
    (opt_default true (cfg_enabled cfg)).

Definition get_embedding (m : manager) (encoder_type : string) (data : pyval) (now : Z)
  : manager * option V :=
  if negb (enabled m) then (m, None) else
  match caches m !! encoder_type with
  | None => (m, None)
  | Some c =>
      let key := generate_cache_key encoder_type data in
      let '(c', r) := get c key now in
      (mkManager (<[encoder_type := c']> (caches m)) (enabled m), r)
  end.

(** The cache object is updated in place, also when [set] raises. *)
Definition set_embedding (m : manager) (encoder_type : string) (data : pyval) (embedding : V)
    (ttl : option Z) (now : Z) : manager * outcome unit :=
  if negb (enabled m) then (m, Ok tt) else
  match caches m !! encoder_type with
  | None => (m, Ok tt)
  | Some c =>
      let key := generate_cache_key encoder_type data in
      let '(c', r) := set c key embedding ttl now in
      (mkManager (<[encoder_type := c']> (caches m)) (enabled m), r)
  end.

(** The module globals [cache_manager] and [metrics]. *)
Record world := mkWorld { cache_manager : option manager; metrics : collector }.

(** [get_cache] *)
Definition get_cache (w : world) : world * manager :=
  match cache_manager w with
  | Some m => (w, m)
  | None => let m := manager_init None in (mkWorld (Some m) (metrics w), m)
  end.

(** The wrapper built by [cached_encode(encoder_type)] around [func],
    called on [data]; [now_get] and [now_set] are the clock readings of the
    lookup and of the store.  The result lists the calls of [func] and of
    [set_embedding] in order.  [cache] is the global manager object, so its
    updates are the global's. *)
Definition cached_encode (encoder_type : string) (func : pyval -> py_result (option V))
    (data : pyval) (now_get now_set : Z) (w : world)
  : world * list event * py_result (option V) :=
  let '(w1, cache) := get_cache w in
  let '(cache1, cached_result) := get_embedding cache encoder_type data now_get in
  let w2 := mkWorld (Some cache1) (metrics w1) in
  match cached_result with
  | Some r => (mkWorld (cache_manager w2) (record_cache_hit (metrics w2)), [], Returned (Some r))
  | None =>
      let w3 := mkWorld (cache_manager w2) (record_cache_miss (metrics w2)) in
      match func data with
      | Raised e => (w3, [ECall data], Raised e)
      | Returned None => (w3, [ECall data], Returned None)
      | Returned (Some result) =>
          let '(cache2, o) := set_embedding cache1 encoder_type data result None now_set in
          let w4 := mkWorld (Some cache2) (metrics w3) in
          match o with
          | Ok _ => (w4, [ECall data; ESetEmbedding], Returned (Some result))
          | Raise e => (w4, [ECall data; ESetEmbedding], Raised (LRUError e))
          end
      end
  end.

End WithValue.

End Manager.

(* ------------------------------------------------------------------ *)
(** ** The rest of [CacheManager] and [LRUCache._generate_key] *)

Module ManagerOps.
Import LRU SHA256 PyData Manager.

Local Open Scope string_scope.
Local Open Scope Z_scope.

(** [LRUCache._generate_key] *)
Definition lru_generate_key (data : pyval) : string :=
  substring 0 32 (hexdigest (sha256 (encode (serialize data)))).

Section WithValue.
Context {V : Type}.

Definition clear_all (m : manager (V:=V)) : manager :=
  mkManager (clear <$> caches m) (enabled m).

(** [CacheManager.clear(encoder_type)]: [if encoder_type:] is false for
    [None] and for the empty string, which clear every cache. *)
Definition manager_clear (m : manager (V:=V)) (encoder_type : option string) : manager :=
  match encoder_type with
  | Some et =>
      if String.eqb et "" then clear_all m else
      match caches m !! et with
      | Some c => mkManager (<[et := clear c]> (caches m)) (enabled m)
      | None => m
      end
  | None => clear_all m
  end.

(** [CacheManager.cleanup_expired], every cache read at the time [now]. *)
Definition manager_cleanup_expired (m : manager (V:=V)) (now : Z) : manager :=
  mkManager ((fun c => cleanup_expired c now) <$> caches m) (enabled m).

(** [CacheManager.get_stats] *)
Definition manager_get_stats (m : manager (V:=V)) : bool * gmap string stats :=
  (enabled m, get_stats <$> caches m).

(** Calls on a manager, for sequences of calls. *)
Inductive cm_op :=
| CMGet (encoder_type : string) (data : pyval) (now : Z)
| CMSet (encoder_type : string) (data : pyval) (embedding : V) (ttl : option Z) (now : Z)
| CMClear (encoder_type : option string)
| CMCleanup (now : Z).

Definition cm_step (m : manager (V:=V)) (o : cm_op) : manager :=
  match o with
  | CMGet et data now => fst (get_embedding m et data now)
  | CMSet et data emb ttl now => fst (set_embedding m et data emb ttl now)
  | CMClear et => manager_clear m et
  | CMCleanup now => manager_cleanup_expired m now
  end.

Definition cm_run (m : manager (V:=V)) (ops : list cm_op) : manager := fold_left cm_step ops m.

End WithValue.


End ManagerOps.

(* ------------------------------------------------------------------ *)
(** ** The counters of [MetricsCollector], [track_request] and
    [_format_uptime] *)

Module MetricsOps.
Import PyData Metrics Manager.

Local Open Scope string_scope.
Local Open Scope Z_scope.

(** A status code: an [int] or a [bool] ([isinstance(True, int)] holds in
    Python). *)
Inductive pyint := IInt (z : Z) | IBool (b : bool).

Definition pyint_value (v : pyint) : Z :=
  match v with IInt z => z | IBool b => if b then 1 else 0 end.

(** [str(status_code)] *)
Definition pyint_str (v : pyint) : string :=
  match v with IInt z => int_repr z | IBool true => "True" | IBool false => "False" end.

(** The counters [record_request_end] updates besides the latencies. *)
Record counters := mkCounters {
  request_count : gmap string Z;   (* self._request_count *)
  status_count : gmap string Z;    (* self._status_count *)
  error_count : gmap string Z;     (* self._error_count *)
  requests_in_window : Z           (* self._requests_in_window *)
}.

Definition counters_init : counters := mkCounters ∅ ∅ ∅ 0.

(** Reading a [defaultdict(int)]. *)
Definition dget (k : string) (m : gmap string Z) : Z :=
  match m !! k with Some n => n | None => 0 end.

(** [d[k] += 1] *)
Definition bump (k : string) (m : gmap string Z) : gmap string Z := <[k := dget k m + 1]> m.

(** The counter part of [record_request_end]. *)
Definition record_request_end_counts (c : counters) (endpoint : string) (status_code : pyint)
  : counters :=
  let rc := bump "total" (bump endpoint (request_count c)) in
  let sc := bump (pyint_str status_code) (status_count c) in
  let ec := if 400 <=? pyint_value status_code
            then bump "total" (bump endpoint (error_count c)) else error_count c in
  mkCounters rc sc ec (requests_in_window c + 1).

(** The whole collector: the part the claims use and the counters. *)
Record mstate := mkMState { coll : collector; counts : counters }.

Definition mstate_init : mstate := mkMState collector_init counters_init.

Definition record_request_start_full (s : mstate) : mstate :=
  mkMState (record_request_start (coll s)) (counts s).

Definition record_request_end_full (s : mstate) (endpoint : string) (status_code : pyint)
    (latency_ms : Q) : mstate :=
  mkMState (record_request_end (coll s) endpoint (pyint_value status_code) latency_ms)
    (record_request_end_counts (counts s) endpoint status_code).

(** [if hasattr(result, '__iter__') and len(result) >= 2:
       status_code = result[1] if isinstance(result[1], int) else 200].
    A list, or a tuple (written [PList] here: only its indexing matters),
    is indexed; [result[1]] on a dict with string keys
    raises [KeyError] (the model's dicts are JSON objects, whose keys are
    strings, so the key [1] is never present); [s[1]] of a string is a
    string; the other values have no [__iter__]. *)
Definition status_of (result : pyval) : py_result pyint :=
  match result with
  | PList (_ :: PInt z :: _) => Returned (IInt z)
  | PList (_ :: PBool b :: _) => Returned (IBool b)
  | PDict d => if Nat.leb 2 (length d) then Raised (UserError "KeyError") else Returned (IInt 200)
  | _ => Returned (IInt 200)
  end.

(** [isinstance(e, Exception)].  [UserError n] stands for an exception of
    the built-in class [n]; the built-in classes that derive from
    [BaseException] but not from [Exception] are listed.  [StopIteration]
    and [KeyError] are [Exception]s. *)
Definition base_only_exceptions : list string :=
  ["BaseException"; "KeyboardInterrupt"; "SystemExit"; "GeneratorExit"; "BaseExceptionGroup"].

Definition is_exception (e : pyexc) : bool :=
  match e with
  | LRUError _ => true
  | UserError n => negb (existsb (String.eqb n) base_only_exceptions)
  end.

(** The wrapper built by [track_request(name)] around [func]; [latency_ms]
    is the elapsed time it measures.  An [Exception] raised in the [try]
    block (by [func] or by the status lookup) is caught by
    [except Exception], records a [500] and is raised again; any other
    exception escapes with only the start of the request recorded. *)
Definition track_request (name : string) (func : unit -> py_result pyval) (latency_ms : Q)
    (s : mstate) : mstate * py_result pyval :=
  let s1 := record_request_start_full s in
  let on_raise (e : pyexc) :=
    if is_exception e then (record_request_end_full s1 name (IInt 500) latency_ms, Raised e)
    else (s1, Raised e) in
  match func tt with
  | Raised e => on_raise e
  | Returned result =>
      match status_of result with
      | Raised e => on_raise e
      | Returned sc => (record_request_end_full s1 name sc latency_ms, Returned result)
      end
  end.

(** [x // y] and [x % y] on a float [x] and a positive [int] [y], on the
    exact value of [x].  For [0 <= x] CPython's float [%] is exact (it is
    [fmod], whose result is representable), and [//] is exact for
    [x < 2 ^ 53].  For a negative [x] the float [%] adds [y] to the
    negative [fmod] result with rounding (so [-1e-20 % 60] is [60.0]),
    which this exact model does not follow. *)
Definition py_floordiv (x : Q) (y : Z) : Z := Qfloor (x / inject_Z y).
Definition py_mod (x : Q) (y : Z) : Q := x - inject_Z (y * py_floordiv x y).

(** The four fields of [_format_uptime]; [int()] of an integral float is
    that integer, and [int(seconds % 60)] truncates a non-negative value. *)
Definition uptime_fields (seconds : Q) : Z * Z * Z * Z :=
  (py_floordiv seconds 86400,
   py_floordiv (py_mod seconds 86400) 3600,
   py_floordiv (py_mod seconds 3600) 60,
   Qfloor (py_mod seconds 60)).

(** [_format_uptime] *)
Definition format_uptime (seconds : Q) : string :=
  let '(days, hours, minutes, secs) := uptime_fields seconds in
  String.concat " "
    ((if 0 <? days then [String.append (int_repr days) "d"] else []) ++
     (if 0 <? hours then [String.append (int_repr hours) "h"] else []) ++
     (if 0 <? minutes then [String.append (int_repr minutes) "m"] else []) ++
     [String.append (int_repr secs) "s"]).

(** The wrapper built by [track_inference(model_type)] around [func];
    [time_ms] is the elapsed time it measures.  The time is recorded after
    [func] returns; an exception of [func] propagates before it. *)
Definition track_inference (model_type : string) (func : unit -> py_result pyval) (time_ms : Q)
    (m : collector) : collector * py_result pyval :=
  match func tt with
  | Raised e => (m, Raised e)
  | Returned result => (record_inference_time m model_type time_ms, Returned result)
  end.

End MetricsOps.

(* ------------------------------------------------------------------ *)
(** ** Proofs about [LRUCache] *)

Module LRUFacts.
Import F64 LRU.


(** *** Facts about the ordered-dict operations and the eviction loop *)
Section Facts.
Context {V : Type}.
Implicit Types (c : list (string * V)) (s : LRUCache V).

Lemma eqb_true_iff' (a b : string) : String.eqb a b = true <-> a = b.
Proof. apply String.eqb_eq. Qed.

Lemma od_mem_In k c : od_mem k c = true <-> In k (map fst c).
Proof.
  unfold od_mem. rewrite existsb_exists. split.
  - intros [[k' v] [Hin Heq]]. simpl in Heq. apply String.eqb_eq in Heq. subst.
    apply (in_map fst _ (k, v)). exact Hin.
  - intros Hin. apply in_map_iff in Hin as [[k' v] [Hk Hin]]. simpl in Hk. subst.
    exists (k, v). split; [exact Hin | apply String.eqb_refl].
Qed.

Lemma od_mem_false k c : od_mem k c = false <-> ~ In k (map fst c).
Proof. rewrite <- od_mem_In. destruct (od_mem k c); split; congruence || (intros; discriminate) || auto. Qed.

Lemma map_fst_od_pop k c :
  map fst (od_pop k c) = List.filter (fun x => negb (String.eqb x k)) (map fst c).
Proof.
  induction c as [|[k' v] c IH]; simpl; [reflexivity|].
  destruct (String.eqb k' k); simpl; [exact IH | f_equal; exact IH].
Qed.

Lemma In_od_pop k k' c :
  In k' (map fst (od_pop k c)) <-> In k' (map fst c) /\ k' <> k.
Proof.
  rewrite map_fst_od_pop, filter_In. rewrite negb_true_iff.
  split; intros [H1 H2]; split; auto.
  - intros ->. rewrite String.eqb_refl in H2. discriminate.
  - destruct (String.eqb_spec k' k); congruence.
Qed.

Lemma od_pop_notin k c : ~ In k (map fst c) -> od_pop k c = c.
Proof.
  induction c as [|[k' v] c IH]; simpl; intros Hn; [reflexivity|].
  destruct (String.eqb_spec k' k) as [->|Hne]; [exfalso; tauto|].
  simpl. f_equal. apply IH. tauto.
Qed.

Lemma od_pop_head k v c : ~ In k (map fst c) -> od_pop k ((k, v) :: c) = c.
Proof. intros Hn. simpl. rewrite String.eqb_refl. simpl. apply od_pop_notin, Hn. Qed.

Lemma NoDup_od_pop k c : List.NoDup (map fst c) -> List.NoDup (map fst (od_pop k c)).
Proof. intros H. rewrite map_fst_od_pop. apply Stdlib.Lists.List.NoDup_filter, H. Qed.

Lemma od_pop_sublist k c : incl (od_pop k c) c.
Proof. intros x Hx. unfold od_pop in Hx. apply filter_In in Hx. tauto. Qed.

Lemma length_od_pop_In k c :
  List.NoDup (map fst c) -> In k (map fst c) -> S (length (od_pop k c)) = length c.
Proof.
  induction c as [|[k' v] c IH]; simpl; intros Hnd Hin; [contradiction|].
  inversion Hnd as [|? ? Hn Hnd']; subst.
  destruct (String.eqb_spec k' k) as [->|Hne]; simpl.
  - rewrite od_pop_notin by exact Hn. reflexivity.
  - f_equal. apply IH; [exact Hnd'|]. destruct Hin; [congruence|assumption].
Qed.

Lemma length_od_pop_le k c : (length (od_pop k c) <= length c)%nat.
Proof. unfold od_pop. apply Stdlib.Lists.List.filter_length_le. Qed.

Lemma od_lookup_Some k v c : od_lookup k c = Some v -> In (k, v) c.
Proof.
  induction c as [|[k' v'] c IH]; simpl; [discriminate|].
  destruct (String.eqb_spec k' k) as [->|]; intros H; [inversion H; auto | auto].
Qed.

Lemma od_lookup_In k v c : List.NoDup (map fst c) -> In (k, v) c -> od_lookup k c = Some v.
Proof.
  induction c as [|[k' v'] c IH]; simpl; intros Hnd Hin; [contradiction|].
  inversion Hnd as [|? ? Hn Hnd']; subst.
  destruct Hin as [Heq|Hin].
  - inversion Heq; subst. rewrite String.eqb_refl. reflexivity.
  - destruct (String.eqb_spec k' k) as [->|]; [|apply IH; assumption].
    exfalso. apply Hn. apply (in_map fst _ (k, v)). exact Hin.
Qed.

Lemma od_lookup_None k c : ~ In k (map fst c) -> od_lookup k c = None.
Proof.
  induction c as [|[k' v'] c IH]; simpl; intros Hn; [reflexivity|].
  destruct (String.eqb_spec k' k); [exfalso; tauto | apply IH; tauto].
Qed.

Lemma In_key_lookup k c : In k (map fst c) -> exists v, In (k, v) c.
Proof.
  intros H. apply in_map_iff in H as [[k' v] [Hk Hin]]. simpl in Hk. subst. eauto.
Qed.

Lemma od_setitem_new k v c : ~ In k (map fst c) -> od_setitem k v c = c ++ [(k, v)].
Proof. intros Hn. unfold od_setitem. apply od_mem_false in Hn. rewrite Hn. reflexivity. Qed.

Lemma od_move_to_end_In k v c :
  List.NoDup (map fst c) -> In (k, v) c -> od_move_to_end k c = od_pop k c ++ [(k, v)].
Proof. intros Hnd Hin. unfold od_move_to_end. rewrite (od_lookup_In k v c Hnd Hin). reflexivity. Qed.


Lemma lookup_delete_all ks m k :
  delete_all ks m !! k = if existsb (String.eqb k) ks then None else m !! k.
Proof.
  revert m. induction ks as [|k' ks IH]; intros m; simpl; [reflexivity|].
  unfold delete_all in *. simpl. rewrite IH.
  destruct (String.eqb_spec k k') as [->|Hne]; simpl.
  - destruct (existsb _ ks); [reflexivity|]. apply lookup_delete_eq.
  - destruct (existsb _ ks); [reflexivity|]. apply lookup_delete_ne. congruence.
Qed.

Lemma existsb_eqb_In k ks : existsb (String.eqb k) ks = true <-> In k ks.
Proof.
  rewrite existsb_exists. split.
  - intros [x [Hx He]]. apply String.eqb_eq in He. subst. exact Hx.
  - intros H. exists k. split; [exact H | apply String.eqb_refl].
Qed.

(** The eviction loop drops a prefix of the dict and deletes its keys from
    both maps; it stops once the size is below [mx], or raises on an empty
    dict when [mx <= 0]. *)
Lemma evict_loop_spec mx c ts tl :
  let '(c', ts', tl', r) := evict_loop mx c ts tl in
  exists pre,
    c = pre ++ c' /\
    ts' = delete_all (map fst pre) ts /\
    tl' = delete_all (map fst pre) tl /\
    ((r = Ok tt /\ Z.of_nat (length c') < mx /\ (Z.of_nat (length c) < mx -> pre = []) /\
      (Z.of_nat (length c) <= mx -> (length pre <= 1)%nat))
     \/ (r = Raise StopIteration /\ c' = [] /\ mx <= 0)).
Proof.
  revert ts tl. induction c as [|[k v] c IH]; intros ts tl; cbn [evict_loop].
  - destruct (mx <=? Z.of_nat (length (@nil (string * V)))) eqn:E;
      [apply Z.leb_le in E | apply Z.leb_gt in E]; simpl in E.
    + exists []. repeat split; auto.
    + exists []. split; [reflexivity|]. split; [reflexivity|]. split; [reflexivity|].
      left. split; [reflexivity|]. split; [simpl; lia|]. split; intros; [reflexivity | simpl; lia].
  - destruct (mx <=? Z.of_nat (length ((k, v) :: c))) eqn:E;
      [apply Z.leb_le in E | apply Z.leb_gt in E]; simpl length in E.
    + specialize (IH (delete k ts) (delete k tl)).
      destruct (evict_loop mx c (delete k ts) (delete k tl)) as [[[c' ts'] tl'] r].
      destruct IH as [pre [-> [-> [-> Hr]]]].
      exists ((k, v) :: pre). repeat split; auto.
      destruct Hr as [[-> [H1 [H2 H3]]]|[-> [-> H1]]].
      * left. split; [reflexivity|]. split; [exact H1|]. split.
        { intros Hc. exfalso. simpl in Hc. lia. }
        intros Hc. simpl in Hc. rewrite length_app in E, Hc. simpl.
        assert (pre = []) as ->; [apply H2; rewrite length_app; lia|]. simpl. lia.
      * right. auto.
    + exists []. split; [reflexivity|]. split; [reflexivity|]. split; [reflexivity|].
      left. split; [reflexivity|]. split; [simpl; lia|]. split; intros; [reflexivity | simpl; lia].
Qed.

End Facts.


(** *** Invariants of reachable caches *)
Section Invariants.
Context {V : Type}.
Implicit Types (c : list (string * V)) (s : LRUCache V).


Lemma NoDup_snoc {A} (l : list A) x : List.NoDup l -> ~ In x l -> List.NoDup (l ++ [x]).
Proof.
  intros Hnd Hn. apply (Permutation_NoDup (l := x :: l)).
  - apply Permutation_cons_append.
  - constructor; assumption.
Qed.

Lemma is_Some_delete (m : gmap string Z) k k' :
  is_Some (delete k m !! k') <-> k' <> k /\ is_Some (m !! k').
Proof.
  destruct (String.eqb_spec k' k) as [->|Hne].
  - rewrite lookup_delete_eq. split; [intros [? H]; discriminate | intros [H _]; congruence].
  - rewrite lookup_delete_ne by congruence. tauto.
Qed.

Lemma is_Some_insert (m : gmap string Z) k k' x :
  is_Some (<[k := x]> m !! k') <-> k' = k \/ is_Some (m !! k').
Proof.
  destruct (String.eqb_spec k' k) as [->|Hne].
  - rewrite lookup_insert_eq. split; [left; reflexivity | intros _; eexists; reflexivity].
  - rewrite lookup_insert_ne by congruence. split; [tauto | intros [H|H]; [congruence | exact H]].
Qed.

Lemma wf_init mx dttl : wf (init (V:=V) mx dttl).
Proof.
  unfold wf, init; simpl. split; [constructor|].
  split; intros k; rewrite lookup_empty; split; [contradiction | intros [? H]; discriminate
                                               | contradiction | intros [? H]; discriminate].
Qed.

Lemma wf_remove s k : wf s -> wf (remove s k).
Proof.
  intros [Hnd [Hts Htl]]. unfold wf, remove, with_store; cbn [cache timestamps ttls].
  split; [apply NoDup_od_pop, Hnd|].
  split; intros k'; rewrite In_od_pop, is_Some_delete.
  - rewrite Hts. tauto.
  - rewrite Htl. tauto.
Qed.

Lemma length_remove s k : (length (cache (remove s k)) <= length (cache s))%nat.
Proof. apply length_od_pop_le. Qed.

Lemma length_remove_In s k :
  wf s -> In k (map fst (cache s)) -> S (length (cache (remove s k))) = length (cache s).
Proof. intros [Hnd _] Hin. apply length_od_pop_In; assumption. Qed.

Lemma remove_notin s k : ~ In k (map fst (cache (remove s k))).
Proof. unfold remove, with_store; cbn [cache]. rewrite In_od_pop. tauto. Qed.

Lemma NoDup_app_disjoint {A} (l1 l2 : list A) x :
  List.NoDup (l1 ++ l2) -> In x l1 -> In x l2 -> False.
Proof.
  induction l1 as [|y l1 IH]; simpl; intros Hnd H1 H2; [exact H1|].
  inversion Hnd as [|? ? Hn Hnd']; subst.
  destruct H1 as [->|H1]; [apply Hn, in_or_app; right; exact H2 | exact (IH Hnd' H1 H2)].
Qed.

(** After the eviction loop the surviving suffix is consistent with the
    maps it leaves. *)
Lemma keys_suffix pre c' (m : gmap string Z) :
  List.NoDup (map fst (pre ++ c')) ->
  (forall k, In k (map fst (pre ++ c')) <-> is_Some (m !! k)) ->
  List.NoDup (map fst c') /\
  (forall k, In k (map fst c') <-> is_Some (delete_all (map fst pre) m !! k)).
Proof.
  rewrite map_app. intros Hnd Hm.
  split; [apply NoDup_app_remove_l in Hnd; exact Hnd|].
  intros k. rewrite lookup_delete_all.
  destruct (existsb (String.eqb k) (map fst pre)) eqn:E.
  - apply existsb_eqb_In in E. split; [|intros [? H]; discriminate].
    intros Hin. exfalso. exact (NoDup_app_disjoint _ _ _ Hnd E Hin).
  - rewrite <- Hm, in_app_iff. split; [tauto|].
    intros [H|H]; [|exact H]. apply existsb_eqb_In in H. congruence.
Qed.


Lemma set_prepare_spec s key :
  wf s ->
  wf (set_prepare s key) /\ ~ In key (map fst (cache (set_prepare s key))) /\
  max_size (set_prepare s key) = max_size s /\
  default_ttl (set_prepare s key) = default_ttl s /\
  hits (set_prepare s key) = hits s /\ misses (set_prepare s key) = misses s /\
  (length (cache (set_prepare s key)) <= length (cache s))%nat /\
  (In key (map fst (cache s)) -> S (length (cache (set_prepare s key))) = length (cache s)) /\
  (~ In key (map fst (cache s)) -> set_prepare s key = s).
Proof.
  intros Hwf. unfold set_prepare. destruct (od_mem key (cache s)) eqn:E.
  - apply od_mem_In in E.
    split; [apply wf_remove, Hwf|]. split; [apply remove_notin|].
    do 4 (split; [reflexivity|]). split; [apply length_remove|].
    split; [intros _; apply length_remove_In; assumption | intros Hn; contradiction].
  - apply od_mem_false in E.
    split; [exact Hwf|]. split; [exact E|].
    do 4 (split; [reflexivity|]). split; [lia|].
    split; [intros H; contradiction | intros _; reflexivity].
Qed.

Lemma set_unfold s key value ttl now :
  set s key value ttl now =
  (let s1 := set_prepare s key in
   match evict_loop (max_size s1) (cache s1) (timestamps s1) (ttls s1) with
   | (c, ts, tl, Raise e) => (with_store s1 c ts tl, Raise e)
   | (c, ts, tl, Ok _) =>
       let ttl' := match ttl with Some l => l | None => default_ttl s1 end in
       (with_store s1 (od_setitem key value c) (<[key := now]> ts) (<[key := ttl']> tl), Ok tt)
   end).
Proof. reflexivity. Qed.

Lemma keys_move_to_end key v c :
  List.NoDup (map fst c) -> In (key, v) c ->
  List.NoDup (map fst (od_move_to_end key c)) /\
  (forall k, In k (map fst (od_move_to_end key c)) <-> In k (map fst c)) /\
  length (od_move_to_end key c) = length c.
Proof.
  intros Hnd Hin. rewrite (od_move_to_end_In key v c Hnd Hin), map_app. simpl.
  assert (Hk : In key (map fst c)) by (apply (in_map fst _ (key, v)); exact Hin).
  split; [apply NoDup_snoc; [apply NoDup_od_pop, Hnd | rewrite In_od_pop; tauto]|].
  split.
  - intros k. rewrite in_app_iff, In_od_pop. simpl.
    destruct (String.eqb_spec k key) as [->|]; [tauto|]. intuition congruence.
  - rewrite length_app. simpl. pose proof (length_od_pop_In key c Hnd Hk). lia.
Qed.

Lemma get_spec s key now :
  wf s ->
  let '(s', _) := get s key now in
  wf s' /\ max_size s' = max_size s /\ default_ttl s' = default_ttl s /\
  (length (cache s') <= length (cache s))%nat.
Proof.
  intros Hwf. pose proof Hwf as [Hnd [Hts Htl]]. unfold get.
  destruct (od_mem key (cache s)) eqn:E; simpl negb; cbv iota.
  - destruct (is_expired s key now).
    + split; [exact (wf_remove s key Hwf)|]. split; [reflexivity|]. split; [reflexivity|].
      apply length_remove.
    + apply od_mem_In, In_key_lookup in E as [v Hin].
      destruct (keys_move_to_end key v (cache s) Hnd Hin) as [H1 [H2 H3]].
      unfold with_counters, with_store, wf; cbn [cache timestamps ttls max_size default_ttl].
      split; [|split; [reflexivity|split; [reflexivity|lia]]].
      split; [exact H1|]. split; intros k; rewrite H2; [apply Hts | apply Htl].
  - split; [exact Hwf|]. split; [reflexivity|]. split; [reflexivity|]. simpl; lia.
Qed.

Lemma set_spec s key value ttl now :
  wf s ->
  let '(s', _) := set s key value ttl now in
  wf s' /\ max_size s' = max_size s /\ default_ttl s' = default_ttl s /\
  (Z.of_nat (length (cache s')) <= Z.max 0 (max_size s)).
Proof.
  intros Hwf. rewrite set_unfold. cbv zeta.
  destruct (set_prepare_spec s key Hwf) as [Hwf1 [Hn1 [Hmx [Hdt _]]]].
  remember (set_prepare s key) as s1 eqn:Hs1. clear Hs1.
  destruct Hwf1 as [Hnd1 [Hts1 Htl1]].
  pose proof (evict_loop_spec (max_size s1) (cache s1) (timestamps s1) (ttls s1)) as Hev.
  destruct (evict_loop (max_size s1) (cache s1) (timestamps s1) (ttls s1))
    as [[[c' ts'] tl'] r].
  destruct Hev as [pre [Hc [-> [-> Hr]]]].
  rewrite Hc in Hnd1, Hts1, Htl1, Hn1.
  destruct (keys_suffix pre c' (timestamps s1) Hnd1 Hts1) as [Hnd' Hts'].
  destruct (keys_suffix pre c' (ttls s1) Hnd1 Htl1) as [_ Htl'].
  assert (Hn' : ~ In key (map fst c')) by (rewrite map_app, in_app_iff in Hn1; tauto).
  destruct Hr as [[-> [Hlen _]]|[-> [-> Hle]]].
  - unfold with_store, wf; cbn [cache timestamps ttls max_size default_ttl].
    rewrite (od_setitem_new key value c' Hn'), map_app. simpl.
    split; [|split; [exact Hmx|split; [exact Hdt|rewrite length_app; simpl; lia]]].
    split; [apply NoDup_snoc; assumption|].
    split; intros k; rewrite in_app_iff, is_Some_insert; simpl;
      [rewrite Hts' | rewrite Htl']; intuition congruence.
  - unfold with_store, wf; cbn [cache timestamps ttls max_size default_ttl].
    split; [split; [exact Hnd'|split; assumption]|].
    split; [exact Hmx|split; [exact Hdt|simpl; lia]].
Qed.

Lemma fold_remove_spec ks s :
  wf s ->
  wf (fold_left remove ks s) /\ max_size (fold_left remove ks s) = max_size s /\
  default_ttl (fold_left remove ks s) = default_ttl s /\
  (length (cache (fold_left remove ks s)) <= length (cache s))%nat.
Proof.
  revert s. induction ks as [|k ks IH]; intros s Hwf; simpl.
  - split; [exact Hwf|]. split; [reflexivity|]. split; [reflexivity|]. lia.
  - destruct (IH (remove s k) (wf_remove s k Hwf)) as [H1 [H2 [H3 H4]]].
    split; [exact H1|]. split; [exact H2|]. split; [exact H3|].
    pose proof (length_remove s k). lia.
Qed.

Lemma step_spec s (o : op V) :
  wf s ->
  wf (step s o) /\ max_size (step s o) = max_size s /\
  default_ttl (step s o) = default_ttl s /\
  (within_capacity s -> within_capacity (step s o)).
Proof.
  intros Hwf. unfold within_capacity. destruct o as [k now|k v ttl now| |now]; simpl.
  - pose proof (get_spec s k now Hwf) as H. destruct (get s k now) as [s' r]. simpl.
    destruct H as [H1 [H2 [H3 H4]]]. split; [exact H1|]. split; [exact H2|].
    split; [exact H3|]. rewrite H2. lia.
  - pose proof (set_spec s k v ttl now Hwf) as H. destruct (set s k v ttl now) as [s' r].
    simpl. destruct H as [H1 [H2 [H3 H4]]]. split; [exact H1|]. split; [exact H2|].
    split; [exact H3|]. rewrite H2. intros _. exact H4.
  - unfold clear, with_store, wf; cbn [cache timestamps ttls max_size default_ttl].
    split; [split; [constructor|split; intros k; rewrite lookup_empty;
      split; (contradiction || intros [? H]; discriminate)]|].
    split; [reflexivity|]. split; [reflexivity|]. simpl. lia.
  - unfold cleanup_expired.
    destruct (fold_remove_spec (List.filter (fun k => is_expired s k now) (map fst (cache s))) s Hwf)
      as [H1 [H2 [H3 H4]]].
    split; [exact H1|]. split; [exact H2|]. split; [exact H3|]. rewrite H2. lia.
Qed.

Lemma run_spec s (ops : list (op V)) :
  wf s ->
  wf (run s ops) /\ max_size (run s ops) = max_size s /\
  default_ttl (run s ops) = default_ttl s /\
  (within_capacity s -> within_capacity (run s ops)).
Proof.
  unfold run. revert s. induction ops as [|o ops IH]; intros s Hwf; simpl.
  - auto.
  - destruct (step_spec s o Hwf) as [H1 [H2 [H3 H4]]].
    destruct (IH (step s o) H1) as [G1 [G2 [G3 G4]]].
    split; [exact G1|]. split; [congruence|]. split; [congruence|]. auto.
Qed.

Lemma run_init_wf mx dttl (ops : list (op V)) : wf (run (init mx dttl) ops).
Proof. apply run_spec, wf_init. Qed.

Lemma run_init_capacity mx dttl (ops : list (op V)) :
  within_capacity (run (init mx dttl) ops) /\ max_size (run (init mx dttl) ops) = mx.
Proof.
  destruct (run_spec (init mx dttl) ops (wf_init mx dttl)) as [_ [H2 [_ H4]]].
  split; [apply H4; unfold within_capacity; simpl; lia | exact H2].
Qed.

Lemma od_lookup_snoc k v c : ~ In k (map fst c) -> od_lookup k (c ++ [(k, v)]) = Some v.
Proof.
  induction c as [|[k' v'] c IH]; simpl; intros Hn.
  - rewrite String.eqb_refl. reflexivity.
  - destruct (String.eqb_spec k' k); [exfalso; tauto | apply IH; tauto].
Qed.

(** With [max_size = 0] a reachable cache is empty, and its maps too. *)
Lemma run_nonpos_empty mx dttl (ops : list (op V)) :
  mx <= 0 ->
  let s := run (init mx dttl) ops in
  cache s = [] /\ timestamps s = ∅ /\ ttls s = ∅.
Proof.
  intros Hle. simpl. destruct (run_init_capacity mx dttl ops) as [Hc Hmx].
  destruct (run_init_wf mx dttl ops) as [_ [Hts Htl]].
  unfold within_capacity in Hc. rewrite Hmx in Hc.
  destruct (cache (run (init mx dttl) ops)) as [|x l] eqn:E; [|simpl in Hc; lia].
  split; [reflexivity|]. try rewrite E in Hts, Htl. simpl in Hts, Htl.
  split; apply map_eq; intros k; rewrite lookup_empty;
    [destruct (timestamps _ !! k) eqn:F | destruct (ttls _ !! k) eqn:F]; try reflexivity;
    exfalso; [apply (proj2 (Hts k)) | apply (proj2 (Htl k))]; rewrite F; eexists; reflexivity.
Qed.

End Invariants.

(** *** Recency order *)
Section Recency.
Context {V : Type}.
Implicit Types (c : list (string * V)) (s : LRUCache V) (ops : list (op V)).

Lemma touch_scan_snoc i t ops (o : op V) k :
  touch_scan i t (ops ++ [o]) k =
  if touches o k then S (i + length ops) else touch_scan i t ops k.
Proof.
  revert i t. induction ops as [|o' ops IH]; intros i t; simpl.
  - rewrite Nat.add_0_r. destruct (touches o k); reflexivity.
  - rewrite IH. rewrite Nat.add_succ_r. reflexivity.
Qed.

Lemma last_touch_snoc ops (o : op V) k :
  last_touch (ops ++ [o]) k = if touches o k then S (length ops) else last_touch ops k.
Proof. unfold last_touch. apply touch_scan_snoc. Qed.

Lemma touch_scan_le i t ops k :
  (t <= i)%nat -> (touch_scan (V:=V) i t ops k <= i + length ops)%nat.
Proof.
  revert i t. induction ops as [|o ops IH]; intros i t Ht; simpl; [lia|].
  specialize (IH (S i) (if touches o k then S i else t)).
  destruct (touches o k); lia.
Qed.

Lemma last_touch_le ops k : (last_touch ops k <= length ops)%nat.
Proof. apply (touch_scan_le 0 0 ops k). lia. Qed.

Lemma touches_other (o : op V) k k' :
  touches o k' = true -> k <> k' -> touches o k = false.
Proof.
  destruct o; simpl; try reflexivity; intros H Hne;
    apply String.eqb_eq in H; subst; apply String.eqb_neq; congruence.
Qed.

Lemma SS_filter (R : string * V -> string * V -> Prop) f c :
  StronglySorted R c -> StronglySorted R (List.filter f c).
Proof.
  induction c as [|x c IH]; simpl; intros H; [constructor|].
  apply StronglySorted_inv in H as [H1 H2].
  destruct (f x); [|auto]. constructor; [auto|].
  rewrite Stdlib.Lists.List.Forall_forall in *. intros y Hy. apply filter_In in Hy. apply H2, Hy.
Qed.

Lemma SS_app_r (R : string * V -> string * V -> Prop) c1 c2 :
  StronglySorted R (c1 ++ c2) -> StronglySorted R c2.
Proof.
  induction c1 as [|x c1 IH]; simpl; intros H; [exact H|].
  apply StronglySorted_inv in H as [H _]. auto.
Qed.

Lemma SS_snoc (R : string * V -> string * V -> Prop) c x :
  StronglySorted R c -> (forall y, In y c -> R y x) -> StronglySorted R (c ++ [x]).
Proof.
  induction c as [|y c IH]; simpl; intros H Hx.
  - repeat constructor.
  - apply StronglySorted_inv in H as [H1 H2]. constructor.
    + apply IH; auto.
    + apply Stdlib.Lists.List.Forall_app. split; [exact H2|]. constructor; [auto|constructor].
Qed.

Lemma SS_impl (R R' : string * V -> string * V -> Prop) c :
  StronglySorted R c -> (forall a b, In a c -> In b c -> R a b -> R' a b) ->
  StronglySorted R' c.
Proof.
  induction c as [|x c IH]; intros H Himp; [constructor|].
  apply StronglySorted_inv in H as [H1 H2]. constructor.
  - apply IH; [exact H1|]. intros a b Ha Hb. apply Himp; right; assumption.
  - rewrite Stdlib.Lists.List.Forall_forall in *. intros y Hy. apply Himp; [left; reflexivity|right; exact Hy|].
    apply H2, Hy.
Qed.

Lemma cache_fold_remove ks s :
  incl (cache (fold_left remove ks s)) (cache s) /\
  (forall R, StronglySorted R (cache s) -> StronglySorted R (cache (fold_left remove ks s))).
Proof.
  revert s. induction ks as [|k ks IH]; intros s; simpl.
  - split; [apply incl_refl | auto].
  - destruct (IH (remove s k)) as [H1 H2]. split.
    + intros x Hx. apply od_pop_sublist with (k := k). apply H1, Hx.
    + intros R HR. apply H2. apply SS_filter, HR.
Qed.

(** The recency relation only changes on the touched key. *)
Lemma recency_step_keep ops (o : op V) c :
  recency_sorted ops c ->
  (forall a, In a c -> touches o (fst a) = false) ->
  recency_sorted (ops ++ [o]) c.
Proof.
  intros H Hk. unfold recency_sorted. apply (SS_impl _ _ c H).
  intros a b Ha Hb. rewrite !last_touch_snoc, (Hk a Ha), (Hk b Hb). auto.
Qed.

Lemma recency_step_snoc ops (o : op V) c x :
  recency_sorted ops c ->
  (forall a, In a c -> touches o (fst a) = false) ->
  touches o (fst x) = true ->
  recency_sorted (ops ++ [o]) (c ++ [x]).
Proof.
  intros H Hk Hx. apply SS_snoc; [apply recency_step_keep; assumption|].
  intros y Hy. rewrite !last_touch_snoc, (Hk y Hy), Hx.
  pose proof (last_touch_le ops (fst y)). lia.
Qed.

Lemma od_pop_keys_ne k c a : In a (od_pop k c) -> fst a <> k.
Proof.
  intros Ha. unfold od_pop in Ha. apply filter_In in Ha as [_ Ha].
  apply negb_true_iff in Ha. intros E. rewrite E, String.eqb_refl in Ha. discriminate.
Qed.

Lemma notin_keys_ne k c a : ~ In k (map fst c) -> In a c -> fst a <> k.
Proof. intros Hn Ha E. apply Hn. rewrite <- E. apply in_map, Ha. Qed.

Lemma recency_step s ops (o : op V) :
  wf s -> recency_sorted ops (cache s) -> recency_sorted (ops ++ [o]) (cache (step s o)).
Proof.
  intros Hwf Hs. pose proof Hwf as [Hnd _].
  destruct o as [k now|k v ttl now| |now]; simpl.
  - (* get *)
    unfold get. destruct (od_mem k (cache s)) eqn:E; simpl negb; cbv iota.
    + destruct (is_expired s k now); simpl.
      * apply recency_step_keep; [apply SS_filter, Hs|].
        intros a Ha. apply (touches_other _ _ k); [simpl; apply String.eqb_refl|].
        apply (od_pop_keys_ne k (cache s) a Ha).
      * apply od_mem_In, In_key_lookup in E as [v Hin].
        rewrite (od_move_to_end_In k v (cache s) Hnd Hin).
        apply recency_step_snoc; [apply SS_filter, Hs| |simpl; apply String.eqb_refl].
        intros a Ha. apply (touches_other _ _ k); [simpl; apply String.eqb_refl|].
        apply (od_pop_keys_ne k (cache s) a Ha).
    + simpl. apply recency_step_keep; [exact Hs|]. apply od_mem_false in E.
      intros a Ha. apply (touches_other _ _ k); [simpl; apply String.eqb_refl|].
      apply (notin_keys_ne k (cache s) a E Ha).
  - (* set *)
    rewrite set_unfold. cbv zeta.
    assert (Hn1 : ~ In k (map fst (cache (set_prepare s k)))).
    { unfold set_prepare. destruct (od_mem k (cache s)) eqn:E;
        [apply remove_notin | apply od_mem_false, E]. }
    assert (Hs1 : recency_sorted ops (cache (set_prepare s k))).
    { unfold set_prepare. destruct (od_mem k (cache s)); [apply SS_filter|]; exact Hs. }
    remember (set_prepare s k) as s1 eqn:Hq. clear Hq.
    pose proof (evict_loop_spec (max_size s1) (cache s1) (timestamps s1) (ttls s1)) as Hev.
    destruct (evict_loop (max_size s1) (cache s1) (timestamps s1) (ttls s1))
      as [[[c' ts'] tl'] r].
    destruct Hev as [pre [Hc [-> [-> Hr]]]].
    rewrite Hc in Hn1, Hs1. apply SS_app_r in Hs1.
    assert (Hn' : ~ In k (map fst c')) by (rewrite map_app, in_app_iff in Hn1; tauto).
    assert (Hk : forall a, In a c' -> touches (OSet k v ttl now) (fst a) = false).
    { intros a Ha. apply (touches_other _ _ k); [simpl; apply String.eqb_refl|].
      apply (notin_keys_ne k c' a Hn' Ha). }
    destruct Hr as [[-> _]|[-> [-> _]]]; simpl.
    + rewrite (od_setitem_new k v c' Hn').
      apply recency_step_snoc; [exact Hs1|exact Hk|simpl; apply String.eqb_refl].
    + constructor.
  - (* clear *)
    constructor.
  - (* cleanup_expired *)
    unfold cleanup_expired. apply recency_step_keep; [|intros; reflexivity].
    apply (proj2 (cache_fold_remove _ s)), Hs.
Qed.

Lemma run_snoc s ops (o : op V) : run s (ops ++ [o]) = step (run s ops) o.
Proof. unfold run. apply fold_left_app. Qed.

(** The entries of a reachable cache are ordered by the time of their last
    [get] or [set]. *)
Lemma run_recency_sorted mx dttl ops :
  recency_sorted ops (cache (run (init mx dttl) ops)).
Proof.
  induction ops as [|o ops IH] using rev_ind; [constructor|].
  rewrite run_snoc. apply recency_step; [apply run_init_wf | exact IH].
Qed.

End Recency.

(** *** Runs of [set] calls at a single instant *)
Section Scenario.
Context {V : Type}.
Implicit Types (c : list (string * V)) (s : LRUCache V) (ops : list (op V)).

Lemma get_hit s k v now :
  wf s -> In (k, v) (cache s) -> is_expired s k now = false -> snd (get s k now) = Some v.
Proof.
  intros [Hnd _] Hin He. unfold get.
  assert (Hm : od_mem k (cache s) = true)
    by (apply od_mem_In, (in_map fst _ (k, v)), Hin).
  rewrite Hm, He. simpl.
  destruct (keys_move_to_end k v (cache s) Hnd Hin) as [H1 _].
  apply od_lookup_In; [exact H1|].
  rewrite (od_move_to_end_In k v (cache s) Hnd Hin). apply in_or_app. right. left. reflexivity.
Qed.

Lemma get_absent s k now : ~ In k (map fst (cache s)) -> snd (get s k now) = None.
Proof. intros Hn. unfold get. apply od_mem_false in Hn. rewrite Hn. reflexivity. Qed.

Lemma uniform_not_expired s k now dttl tq :
  wf s -> uniform now dttl s -> In k (map fst (cache s)) -> tq - now <= dttl ->
  is_expired s k tq = false.
Proof.
  intros [_ [Hts Htl]] [Ut [Ul _]] Hk Hq. unfold is_expired.
  destruct (proj1 (Hts k) Hk) as [t Ht]. destruct (proj1 (Htl k) Hk) as [l Hl].
  rewrite Ht, Hl. rewrite (Ut k t Ht), (Ul k l Hl). apply Z.ltb_ge. exact Hq.
Qed.

Lemma uniform_delete_all ks (m : gmap string Z) (x : Z) :
  (forall k y, m !! k = Some y -> y = x) ->
  forall k y, delete_all ks m !! k = Some y -> y = x.
Proof.
  intros H k y. rewrite lookup_delete_all. destruct (existsb _ _); [discriminate|apply H].
Qed.

Lemma uniform_delete (m : gmap string Z) (x : Z) k0 :
  (forall k y, m !! k = Some y -> y = x) ->
  forall k y, delete k0 m !! k = Some y -> y = x.
Proof.
  intros H k y. destruct (String.eqb_spec k k0) as [->|].
  - rewrite lookup_delete_eq. discriminate.
  - rewrite lookup_delete_ne by congruence. apply H.
Qed.

Lemma uniform_insert (m : gmap string Z) (x : Z) k0 :
  (forall k y, m !! k = Some y -> y = x) ->
  forall k y, <[k0 := x]> m !! k = Some y -> y = x.
Proof.
  intros H k y. destruct (String.eqb_spec k k0) as [->|].
  - rewrite lookup_insert_eq. congruence.
  - rewrite lookup_insert_ne by congruence. apply H.
Qed.

Lemma uniform_get s k now dttl tq :
  uniform now dttl s -> uniform now dttl (fst (get s k tq)).
Proof.
  intros [Ut [Ul Ud]]. unfold get.
  destruct (od_mem k (cache s)); simpl; [destruct (is_expired s k tq)|]; simpl.
  - split; [apply uniform_delete, Ut|]. split; [apply uniform_delete, Ul|exact Ud].
  - split; [exact Ut|]. split; [exact Ul|exact Ud].
  - split; [exact Ut|]. split; [exact Ul|exact Ud].
Qed.

Lemma uniform_set s k (v : V) now dttl :
  uniform now dttl s -> uniform now dttl (fst (set s k v None now)).
Proof.
  intros [Ut [Ul Ud]]. rewrite set_unfold. cbv zeta.
  assert (U1 : uniform now dttl (set_prepare s k)).
  { unfold set_prepare. destruct (od_mem k (cache s)).
    - split; [apply uniform_delete, Ut|]. split; [apply uniform_delete, Ul|exact Ud].
    - split; [exact Ut|]. split; [exact Ul|exact Ud]. }
  remember (set_prepare s k) as s1 eqn:Hq. clear Hq. destruct U1 as [Ut1 [Ul1 Ud1]].
  pose proof (evict_loop_spec (max_size s1) (cache s1) (timestamps s1) (ttls s1)) as Hev.
  destruct (evict_loop (max_size s1) (cache s1) (timestamps s1) (ttls s1))
    as [[[c' ts'] tl'] r].
  destruct Hev as [pre [_ [-> [-> _]]]].
  destruct r; simpl; unfold with_store; cbn [timestamps ttls default_ttl].
  - split; [apply uniform_insert, uniform_delete_all, Ut1|].
    split; [rewrite Ud1; apply uniform_insert, uniform_delete_all, Ul1 | exact Ud1].
  - split; [apply uniform_delete_all, Ut1|].
    split; [apply uniform_delete_all, Ul1 | exact Ud1].
Qed.


(** Inserting distinct keys into a fresh cache that has room for them all
    lays them out in insertion order. *)
Lemma run_set_all mx dttl now (entries : list (string * V)) :
  List.NoDup (map fst entries) -> Z.of_nat (length entries) <= mx ->
  cache (run (init mx dttl) (set_all_at now entries)) = entries /\
  uniform now dttl (run (init mx dttl) (set_all_at now entries)).
Proof.
  induction entries as [|[k v] entries IH] using rev_ind; intros Hnd Hlen.
  - split; [reflexivity|]. unfold uniform; simpl.
    split; [intros k t; rewrite lookup_empty; discriminate|].
    split; [intros k t; rewrite lookup_empty; discriminate|reflexivity].
  - rewrite map_app in Hnd. rewrite length_app in Hlen. simpl in Hlen.
    assert (Hk : ~ In k (map fst entries)).
    { intros H. apply (NoDup_app_disjoint _ _ k Hnd H). left. reflexivity. }
    destruct (IH (NoDup_app_remove_r _ _ Hnd) ltac:(lia)) as [Hc Hu].
    unfold set_all_at in *. rewrite map_app. cbn [map]. rewrite run_snoc. simpl step.
    split; [|apply uniform_set, Hu].
    remember (run (init mx dttl) (map (fun '(k0, v0) => OSet k0 v0 None now) entries)) as s.
    assert (Hmx : max_size s = mx) by (subst s; apply run_init_capacity).
    rewrite set_unfold. cbv zeta. unfold set_prepare.
    rewrite <- Hc in Hk. pose proof Hk as Hk'. apply od_mem_false in Hk.
    rewrite Hk.
    pose proof (evict_loop_spec (max_size s) (cache s) (timestamps s) (ttls s)) as Hev.
    destruct (evict_loop (max_size s) (cache s) (timestamps s) (ttls s))
      as [[[c' ts'] tl'] r].
    destruct Hev as [pre [Hc' [_ [_ Hr]]]].
    destruct Hr as [[-> [_ [Hpre _]]]|[_ [_ Hle]]]; [|rewrite Hmx in Hle; lia].
    rewrite Hpre in Hc' by (rewrite Hc, Hmx; lia). simpl in Hc'. rewrite <- Hc'.
    simpl. rewrite od_setitem_new by exact Hk'. rewrite Hc. reflexivity.
Qed.

End Scenario.

End LRUFacts.

(* ------------------------------------------------------------------ *)
(** ** Proofs about key derivation *)

Module KeyFacts.
Import SHA256 PyData Manager.

(** Strings: lengths, characters, order. *)

Lemma length_append (a b : string) :
  String.length (String.append a b) = (String.length a + String.length b)%nat.
Proof. induction a as [|c a IH]; simpl; [reflexivity|]. rewrite IH. reflexivity. Qed.

Lemma append_cancel_r (a b c : string) : String.append a c = String.append b c -> a = b.
Proof.
  intros H.
  assert (Hl : String.length a = String.length b).
  { apply (f_equal String.length) in H. rewrite !length_append in H. lia. }
  revert b Hl H. induction a as [|x a IH]; intros [|y b] Hl H; simpl in Hl, H;
    try discriminate; [reflexivity|].
  injection H as -> H. f_equal. apply IH; [lia|exact H].
Qed.

Lemma chars_append (a b : string) :
  list_ascii_of_string (String.append a b) = list_ascii_of_string a ++ list_ascii_of_string b.
Proof. induction a as [|c a IH]; simpl; [reflexivity|]. rewrite IH. reflexivity. Qed.

Lemma length_substring0 (n : nat) (s : string) :
  (n <= String.length s)%nat -> String.length (substring 0 n s) = n.
Proof.
  revert s. induction n as [|n IH]; intros [|c s] Hn; simpl in *; try lia.
  rewrite IH by lia. reflexivity.
Qed.

Lemma chars_substring0 (P : ascii -> Prop) (n : nat) (s : string) :
  Forall P (list_ascii_of_string s) -> Forall P (list_ascii_of_string (substring 0 n s)).
Proof.
  revert s. induction n as [|n IH]; intros [|c s] H; simpl; [constructor|constructor|constructor|].
  simpl in H. inversion H; subst. constructor; [assumption|]. apply IH. assumption.
Qed.

Lemma hex_digit_ok (n : Z) :
  0 <= n < 16 -> exists c, hex_digit n = String c EmptyString /\ In c hex_chars.
Proof.
  intros Hn.
  assert (H : forallb (fun k => match hex_digit k with
                                | String c EmptyString => existsb (Ascii.eqb c) hex_chars
                                | _ => false
                                end) (map Z.of_nat (seq 0 16)) = true)
    by (vm_compute; reflexivity).
  rewrite forallb_forall in H. specialize (H n).
  assert (Hin : In n (map Z.of_nat (seq 0 16))).
  { replace n with (Z.of_nat (Z.to_nat n)) by lia. apply in_map, in_seq. lia. }
  specialize (H Hin). destruct (hex_digit n) as [|c [|c' s]]; try discriminate.
  exists c. split; [reflexivity|].
  apply existsb_exists in H as [c0 [Hc0 Heq]]. apply Ascii.eqb_eq in Heq. subst. exact Hc0.
Qed.

Lemma length_hexdigest (bs : list Z) : String.length (hexdigest bs) = (2 * length bs)%nat.
Proof.
  induction bs as [|b bs IH]; simpl; [reflexivity|].
  rewrite !length_append. unfold hex_digit, chr. simpl. rewrite IH. lia.
Qed.

Lemma hexdigest_chars (bs : list Z) :
  Forall (fun b => 0 <= b < 256) bs ->
  Forall (fun c => In c hex_chars) (list_ascii_of_string (hexdigest bs)).
Proof.
  induction bs as [|b bs IH]; intros H; cbn [hexdigest]; [simpl; constructor|].
  inversion H as [|? ? Hb Hbs]; subst.
  destruct (hex_digit_ok (b / 16)) as [c1 [-> H1]].
  { split; [apply Z.div_pos; lia|]. apply Z.div_lt_upper_bound; lia. }
  destruct (hex_digit_ok (b mod 16)) as [c2 [-> H2]]; [apply Z.mod_pos_bound; lia|].
  rewrite !chars_append. simpl. constructor; [exact H1|]. constructor; [exact H2|]. apply IH. assumption.
Qed.

Lemma be_bytes_range (n : nat) (x : Z) : Forall (fun b => 0 <= b < 256) (be_bytes n x).
Proof.
  unfold be_bytes. apply Stdlib.Lists.List.Forall_forall. intros b Hb. apply in_map_iff in Hb as [i [<- _]].
  change 255 with (Z.ones 8). rewrite Z.land_ones by lia.
  apply Z.mod_pos_bound. reflexivity.
Qed.

Lemma length_be_bytes (n : nat) (x : Z) : length (be_bytes n x) = n.
Proof. unfold be_bytes. rewrite length_map, length_seq. reflexivity. Qed.

Lemma sha256_shape (msg : list Z) :
  length (sha256 msg) = 32%nat /\ Forall (fun b => 0 <= b < 256) (sha256 msg).
Proof.
  unfold sha256. set (s := process _ H0 _).
  split; [reflexivity|].
  apply Stdlib.Lists.List.Forall_forall. intros b Hb. apply in_flat_map in Hb as [x [_ Hx]].
  pose proof (be_bytes_range 4 x) as H. rewrite Stdlib.Lists.List.Forall_forall in H. apply H, Hx.
Qed.

(** The key is 32 lowercase hex digits. *)
Lemma generate_cache_key_shape (et : string) (data : pyval) :
  String.length (generate_cache_key et data) = 32%nat /\
  Forall (fun c => In c hex_chars) (list_ascii_of_string (generate_cache_key et data)).
Proof.
  unfold generate_cache_key.
  destruct (sha256_shape (encode (combined_input et data))) as [Hl Hr].
  split.
  - apply length_substring0. rewrite length_hexdigest, Hl. lia.
  - apply chars_substring0, hexdigest_chars, Hr.
Qed.

(** [String.compare] is a strict total order on distinct strings. *)
Lemma string_compare_trans (a b c : string) :
  String.compare a b = Lt -> String.compare b c = Lt -> String.compare a c = Lt.
Proof.
  revert b c. induction a as [|x a IH]; intros [|y b] [|z c]; cbn; try discriminate; try reflexivity.
  unfold Ascii.compare.
  destruct (N.compare_spec (N_of_ascii x) (N_of_ascii y)) as [E1|E1|E1];
  destruct (N.compare_spec (N_of_ascii y) (N_of_ascii z)) as [E2|E2|E2];
    intros H1 H2; try discriminate.
  - rewrite E1, E2, N.compare_refl. exact (IH _ _ H1 H2).
  - rewrite E1. rewrite (proj2 (N.compare_lt_iff _ _) E2). reflexivity.
  - rewrite <- E2. rewrite (proj2 (N.compare_lt_iff _ _) E1). reflexivity.
  - rewrite (proj2 (N.compare_lt_iff (N_of_ascii x) (N_of_ascii z))); [reflexivity|lia].
Qed.

Lemma key_lt_trans a b c : key_lt a b = true -> key_lt b c = true -> key_lt a c = true.
Proof.
  unfold key_lt. destruct (String.compare a b) eqn:E1; try discriminate.
  destruct (String.compare b c) eqn:E2; try discriminate.
  rewrite (string_compare_trans a b c E1 E2). reflexivity.
Qed.

Lemma key_lt_total a b : a <> b -> key_lt a b = false -> key_lt b a = true.
Proof.
  unfold key_lt. intros Hne.
  rewrite (String.compare_antisym a b).
  destruct (String.compare b a) eqn:E; simpl; try discriminate; try reflexivity.
  apply String.compare_eq_iff in E. congruence.
Qed.

Lemma key_lt_asym a b : key_lt a b = true -> key_lt b a = false.
Proof.
  unfold key_lt. rewrite (String.compare_antisym a b).
  destruct (String.compare b a); simpl; congruence.
Qed.

Lemma key_lt_irrefl a : key_lt a a = false.
Proof.
  destruct (key_lt a a) eqn:E; [|reflexivity].
  pose proof (key_lt_asym _ _ E). congruence.
Qed.

(** The position of a new item only depends on the order of the keys. *)
Lemma insert_item_comm (x y : string * string) (l : list (string * string)) :
  fst x <> fst y -> insert_item x (insert_item y l) = insert_item y (insert_item x l).
Proof.
  intros Hxy. induction l as [|z l IH].
  - simpl. destruct (key_lt (fst y) (fst x)) eqn:E1.
    + rewrite (key_lt_asym _ _ E1). reflexivity.
    + rewrite (key_lt_total _ _ (not_eq_sym Hxy) E1). reflexivity.
  - simpl. destruct (key_lt (fst z) (fst y)) eqn:Ey, (key_lt (fst z) (fst x)) eqn:Ex.
    + simpl. rewrite Ex, Ey, IH. reflexivity.
    + simpl. rewrite Ex, Ey.
      assert (Hxy' : key_lt (fst x) (fst y) = true).
      { destruct (String.eqb_spec (fst x) (fst z)) as [Heq|Hne].
        - rewrite Heq. exact Ey.
        - apply (key_lt_trans _ (fst z)); [|exact Ey].
          apply key_lt_total; [congruence|exact Ex]. }
      rewrite Hxy'. simpl. try rewrite Ey. reflexivity.
    + simpl. rewrite Ex, Ey.
      assert (Hyx : key_lt (fst y) (fst x) = true).
      { destruct (String.eqb_spec (fst y) (fst z)) as [Heq|Hne].
        - rewrite Heq. exact Ex.
        - apply (key_lt_trans _ (fst z)); [|exact Ex].
          apply key_lt_total; [congruence|exact Ey]. }
      rewrite Hyx. simpl. try rewrite Ex. reflexivity.
    + simpl. rewrite Ex, Ey.
      destruct (key_lt (fst y) (fst x)) eqn:E1.
      * rewrite (key_lt_asym _ _ E1). simpl. try rewrite Ex. reflexivity.
      * rewrite (key_lt_total _ _ (not_eq_sym Hxy) E1). simpl. try rewrite Ey. reflexivity.
Qed.

(** Sorting items with distinct keys does not depend on their order. *)
Lemma sort_items_perm (l1 l2 : list (string * string)) :
  Permutation l1 l2 -> List.NoDup (map fst l1) -> sort_items l1 = sort_items l2.
Proof.
  induction 1 as [|x l1 l2 _ IH|x y l|l1 l2 l3 H12 IH1 _ IH2]; intros Hnd.
  - reflexivity.
  - simpl in Hnd. apply Stdlib.Lists.List.NoDup_cons_iff in Hnd as [_ Hnd].
    simpl. rewrite (IH Hnd). reflexivity.
  - simpl in Hnd. apply Stdlib.Lists.List.NoDup_cons_iff in Hnd as [Hy _].
    simpl. apply insert_item_comm. intros Heq. apply Hy. rewrite Heq. left. reflexivity.
  - rewrite (IH1 Hnd). apply IH2.
    apply (Permutation_NoDup (Permutation_map fst H12) Hnd).
Qed.

Lemma json_dumps_dict (d : list (string * pyval)) :
  json_dumps (PDict d) =
  String.append "{"
    (String.append
       (String.concat ", "
          (map render_item (sort_items (map (fun '(k, x) => (k, json_dumps x)) d))))
       "}").
Proof. reflexivity. Qed.

Lemma map_fst_render (d : list (string * pyval)) :
  map fst (map (fun '(k, x) => (k, json_dumps x)) d) = map fst d.
Proof. induction d as [|[k x] d IH]; simpl; [reflexivity|]. rewrite IH. reflexivity. Qed.

(** [json.dumps(d, sort_keys=True)] of a dict does not depend on the
    insertion order of its keys. *)
Lemma json_dumps_dict_perm (d1 d2 : list (string * pyval)) :
  List.NoDup (map fst d1) -> Permutation d1 d2 -> json_dumps (PDict d1) = json_dumps (PDict d2).
Proof.
  intros Hnd Hp. rewrite !json_dumps_dict.
  rewrite (sort_items_perm _ (map (fun '(k, x) => (k, json_dumps x)) d2)); [reflexivity| |].
  - apply Permutation_map, Hp.
  - rewrite map_fst_render. exact Hnd.
Qed.

End KeyFacts.

(* ------------------------------------------------------------------ *)
(** ** Proofs about [CacheManager] and [cached_encode] *)

Module ManagerFacts.
Import LRU LRUFacts Manager.

Section ManagerFacts.
Context {V : Type}.

Lemma od_move_to_end_incl (k : string) (c : list (string * V)) : incl (od_move_to_end k c) c.
Proof.
  unfold od_move_to_end. destruct (od_lookup k c) as [v|] eqn:E; [|apply incl_refl].
  apply incl_app; [apply od_pop_sublist|]. intros x [<-|[]]. apply od_lookup_Some, E.
Qed.

(** [get] never adds an entry. *)
Lemma get_incl (s : LRUCache V) k now : incl (cache (fst (get s k now))) (cache s).
Proof.
  unfold get. destruct (negb (od_mem k (cache s))); [apply incl_refl|].
  destruct (is_expired s k now); simpl; [apply od_pop_sublist|apply od_move_to_end_incl].
Qed.

Lemma get_embedding_incl (m : manager (V:=V)) et data now ns c1 :
  caches (fst (get_embedding m et data now)) !! ns = Some c1 ->
  exists c0, caches m !! ns = Some c0 /\ incl (cache c1) (cache c0).
Proof.
  unfold get_embedding. destruct (negb (enabled m)); [simpl; eauto using incl_refl|].
  destruct (caches m !! et) as [c|] eqn:E; [|simpl; eauto using incl_refl].
  pose proof (get_incl c (generate_cache_key et data) now) as Hi.
  destruct (get c (generate_cache_key et data) now) as [c' r]. simpl.
  destruct (String.eqb_spec et ns) as [<-|Hne].
  - rewrite lookup_insert_eq. intros [= <-]. eauto.
  - rewrite lookup_insert_ne by exact Hne. intros H. eauto using incl_refl.
Qed.

(** [set_embedding] only touches the cache of its own encoder type. *)
Lemma set_embedding_other (m : manager (V:=V)) et data emb ttl now ns :
  et <> ns -> caches (fst (set_embedding m et data emb ttl now)) !! ns = caches m !! ns.
Proof.
  intros Hne. unfold set_embedding. destruct (negb (enabled m)); [reflexivity|].
  destruct (caches m !! et) as [c|]; [|reflexivity].
  destruct (set c (generate_cache_key et data) emb ttl now) as [c' r]. simpl.
  apply lookup_insert_ne, Hne.
Qed.

Lemma set_embedding_enabled (m : manager (V:=V)) et data emb ttl now :
  enabled (fst (set_embedding m et data emb ttl now)) = enabled m.
Proof.
  unfold set_embedding. destruct (negb (enabled m)); [reflexivity|].
  destruct (caches m !! et) as [c|]; [|reflexivity].
  destruct (set c (generate_cache_key et data) emb ttl now). reflexivity.
Qed.

(** [get_embedding] only reads the cache of its own encoder type. *)
Lemma get_embedding_same (m m' : manager (V:=V)) et data now :
  enabled m' = enabled m -> caches m' !! et = caches m !! et ->
  snd (get_embedding m' et data now) = snd (get_embedding m et data now).
Proof.
  intros He Hc. unfold get_embedding. rewrite He, Hc.
  destruct (negb (enabled m)); [reflexivity|].
  destruct (caches m !! et) as [c|]; [|reflexivity].
  destruct (get c (generate_cache_key et data) now). reflexivity.
Qed.

Lemma manager_init_gesture cfg :
  caches (manager_init (V:=V) cfg) !! "gesture"%string =
  Some (init (opt_default 1000 (cfg_max_size (opt_default (mkConfig None None None) cfg)))
             (opt_default 3600 (cfg_ttl (opt_default (mkConfig None None None) cfg)))).
Proof.
  unfold manager_init. cbn [caches].
  rewrite lookup_insert_ne by discriminate. rewrite lookup_insert_eq. reflexivity.
Qed.

End ManagerFacts.
End ManagerFacts.

(* ------------------------------------------------------------------ *)
(** ** Proofs about [MetricsCollector] *)

Module MetricsFacts.
Import F64 Metrics.

Lemma series_append_same k x m : series k (append_sample k x m) = series k m ++ [x].
Proof. unfold series at 1, append_sample. rewrite lookup_insert_eq. reflexivity. Qed.

Lemma series_append_other k k' x m : k <> k' -> series k' (append_sample k x m) = series k' m.
Proof. intros H. unfold series at 1, append_sample. rewrite lookup_insert_ne by exact H. reflexivity. Qed.

Lemma series_trim_same k m : (length (series k (trim k m)) <= max_latency_samples)%nat.
Proof.
  unfold trim. destruct (Nat.ltb_spec max_latency_samples (length (series k m))) as [H|H]; [|exact H].
  unfold series at 1. rewrite lookup_insert_eq. rewrite length_skipn. lia.
Qed.

Lemma series_trim_other k k' m : k <> k' -> series k' (trim k m) = series k' m.
Proof.
  intros H. unfold trim. destruct (Nat.ltb _ _); [|reflexivity].
  unfold series at 1. rewrite lookup_insert_ne by exact H. reflexivity.
Qed.

Lemma capped_empty : capped ∅.
Proof. intros k. unfold series. rewrite lookup_empty. simpl. unfold max_latency_samples. lia. Qed.

Lemma capped_trim_append k x m : capped m -> capped (trim k (append_sample k x m)).
Proof.
  intros H k'. destruct (String.eqb_spec k k') as [<-|Hne]; [apply series_trim_same|].
  rewrite series_trim_other, series_append_other by exact Hne. apply H.
Qed.

Lemma capped_request_end m ep sc lat :
  capped (latencies m) -> capped (latencies (record_request_end m ep sc lat)).
Proof.
  intros H k. unfold record_request_end. cbn [latencies].
  destruct (String.eqb_spec "all"%string k) as [<-|Hall]; [apply series_trim_same|].
  rewrite series_trim_other by exact Hall.
  destruct (String.eqb_spec ep k) as [<-|Hep]; [apply series_trim_same|].
  rewrite series_trim_other, series_append_other, series_append_other by assumption.
  apply H.
Qed.

Lemma mstep_capped m o :
  capped (latencies m) /\ capped (inference_times m) ->
  capped (latencies (mstep m o)) /\ capped (inference_times (mstep m o)).
Proof.
  intros [H1 H2]. destruct o; cbn [mstep].
  - split; [exact H1|exact H2].
  - split; [apply capped_request_end, H1|exact H2].
  - split; [exact H1|apply capped_trim_append, H2].
  - split; [exact H1|exact H2].
  - split; [exact H1|exact H2].
  - split; apply capped_empty.
Qed.

Lemma mrun_capped m ops :
  capped (latencies m) /\ capped (inference_times m) ->
  capped (latencies (mrun m ops)) /\ capped (inference_times (mrun m ops)).
Proof.
  unfold mrun. revert m. induction ops as [|o ops IH]; intros m H; simpl; [exact H|].
  apply IH, mstep_capped, H.
Qed.

Lemma mrun_init_capped ops :
  capped (latencies (mrun collector_init ops)) /\ capped (inference_times (mrun collector_init ops)).
Proof. apply mrun_capped. split; apply capped_empty. Qed.

(** Active and peak counts. *)
Lemma mrun_snoc m ops o : mrun m (ops ++ [o]) = mstep (mrun m ops) o.
Proof. unfold mrun. rewrite fold_left_app. reflexivity. Qed.

Lemma fold_max_snoc (l : list Z) x :
  0 <= x -> fold_right Z.max 0 (l ++ [x]) = Z.max (fold_right Z.max 0 l) x.
Proof. induction l as [|y l IH]; simpl; intros Hx; [lia|]. rewrite IH by exact Hx. lia. Qed.

Lemma active_trace_snoc m ops o :
  active_trace m (ops ++ [o]) = active_trace m ops ++ [active_requests (mrun m (ops ++ [o]))].
Proof.
  unfold active_trace. rewrite length_app. simpl length.
  replace (S (length ops + 1)) with (S (S (length ops))) by lia.
  rewrite (seq_S (S (length ops)) 0), map_app. f_equal.
  - apply map_ext_in. intros i Hi. apply in_seq in Hi.
    rewrite firstn_app. replace (i - length ops)%nat with 0%nat by lia.
    rewrite firstn_O, app_nil_r. reflexivity.
  - simpl. rewrite firstn_all2; [reflexivity|]. rewrite length_app. simpl. lia.
Qed.

Lemma mstep_active_peak m o :
  o <> MReset -> 0 <= active_requests m <= peak_active_requests m ->
  0 <= active_requests (mstep m o) <= peak_active_requests (mstep m o) /\
  peak_active_requests (mstep m o) = Z.max (peak_active_requests m) (active_requests (mstep m o)).
Proof.
  intros Hne H. destruct o; [| | | | |congruence]; simpl;
    unfold record_request_start, record_request_end, record_inference_time,
      record_cache_hit, record_cache_miss; cbn [active_requests peak_active_requests]; lia.
Qed.

Lemma active_peak_trace ops :
  Forall (fun o => o <> MReset) ops ->
  let m := mrun collector_init ops in
  0 <= active_requests m <= peak_active_requests m /\
  Forall (fun a => 0 <= a) (active_trace collector_init ops) /\
  peak_active_requests m = fold_right Z.max 0 (active_trace collector_init ops).
Proof.
  induction ops as [|o ops IH] using rev_ind; intros Hops m.
  - subst m. cbn. split; [lia|]. split; [repeat constructor; lia|reflexivity].
  - apply Forall_app in Hops as [Hops Ho]. inversion Ho as [|? ? Ho' _]; subst.
    destruct (IH Hops) as [Hap [Htr Hpk]].
    subst m. rewrite active_trace_snoc, mrun_snoc.
    destruct (mstep_active_peak (mrun collector_init ops) o Ho' Hap) as [Hap' Hpk'].
    split; [exact Hap'|]. split.
    + apply Forall_app. split; [exact Htr|]. constructor; [lia|constructor].
    + rewrite fold_max_snoc by lia. rewrite <- Hpk. exact Hpk'.
Qed.

(** Percentiles. *)
Lemma insert_sample_perm x l : Permutation (insert_sample x l) (x :: l).
Proof.
  induction l as [|y l IH]; simpl; [reflexivity|].
  destruct (Qle_bool x y); [reflexivity|].
  rewrite IH. apply perm_swap.
Qed.

Lemma sorted_samples_perm l : Permutation l (sorted_samples l).
Proof.
  induction l as [|x l IH]; simpl; [reflexivity|].
  rewrite insert_sample_perm. apply perm_skip, IH.
Qed.

Lemma insert_sample_hd y x l : HdRel Qle y l -> (y <= x)%Q -> HdRel Qle y (insert_sample x l).
Proof.
  intros H Hyx. destruct l as [|z l]; simpl; [constructor; exact Hyx|].
  destruct (Qle_bool x z); constructor; [exact Hyx|]. inversion H; assumption.
Qed.

Lemma insert_sample_sorted x l : Sorted Qle l -> Sorted Qle (insert_sample x l).
Proof.
  induction 1 as [|y l Hs IH Hhd]; simpl; [repeat constructor|].
  destruct (Qle_bool x y) eqn:E.
  - constructor; [constructor; assumption|]. constructor. apply Qle_bool_iff. exact E.
  - constructor; [exact IH|]. apply insert_sample_hd; [exact Hhd|].
    apply Qlt_le_weak, Qnot_le_lt. intros H. apply Qle_bool_iff in H. congruence.
Qed.

Lemma sorted_samples_sorted l : Sorted Qle (sorted_samples l).
Proof. induction l as [|x l IH]; simpl; [constructor|]. apply insert_sample_sorted, IH. Qed.

Lemma sorted_samples_strongly l : StronglySorted Qle (sorted_samples l).
Proof. apply Sorted_StronglySorted; [exact Qle_trans|]. apply sorted_samples_sorted. Qed.

Lemma SS_head_le (x : Q) l : StronglySorted Qle (x :: l) -> forall y, In y (x :: l) -> (x <= y)%Q.
Proof.
  intros H y [<-|Hy]; [apply Qle_refl|].
  apply StronglySorted_inv in H as [_ H]. rewrite Stdlib.Lists.List.Forall_forall in H. apply H, Hy.
Qed.

Lemma SS_last_ge (l : list Q) z : StronglySorted Qle (l ++ [z]) -> forall y, In y (l ++ [z]) -> (y <= z)%Q.
Proof.
  induction l as [|x l IH]; simpl; intros H y Hy.
  - destruct Hy as [<-|[]]. apply Qle_refl.
  - apply StronglySorted_inv in H as [H1 H2]. destruct Hy as [<-|Hy].
    + rewrite Stdlib.Lists.List.Forall_forall in H2. apply H2. apply in_or_app. right. left. reflexivity.
    + apply IH; assumption.
Qed.

Lemma py_index_nat (l : list Q) (i : nat) : py_index l (Z.of_nat i) = nth_error l i.
Proof.
  unfold py_index. replace (0 <=? Z.of_nat i) with true by (symmetry; apply Z.leb_le; lia).
  rewrite Nat2Z.id. reflexivity.
Qed.

Lemma py_index_last (l : list Q) : l <> [] -> py_index l (-1) = nth_error l (length l - 1).
Proof.
  intros H. destruct l as [|x l]; [congruence|]. unfold py_index.
  simpl length. replace (0 <=? -1) with false by reflexivity.
  replace (- Z.of_nat (S (length l)) <=? -1) with true by (symmetry; apply Z.leb_le; lia).
  f_equal. lia.
Qed.

(** [int(n * 0.5)], [int(n * 0.95)] and [int(n * 0.99)] computed in
    binary64 are the exact floors for every series length up to the cap. *)
Lemma float_indices (n : nat) :
  (1 <= n <= 1000)%nat ->
  int_of (mul_int f_half (Z.of_nat n)) = Z.of_nat (n / 2) /\
  int_of (mul_int f_95 (Z.of_nat n)) = Z.of_nat (n * 95 / 100) /\
  int_of (mul_int f_99 (Z.of_nat n)) = Z.of_nat (n * 99 / 100).
Proof.
  intros Hn.
  assert (H : forallb (fun k => (int_of (mul_int f_half k) =? k / 2) &&
                                (int_of (mul_int f_95 k) =? k * 95 / 100) &&
                                (int_of (mul_int f_99 k) =? k * 99 / 100))
                (map Z.of_nat (seq 1 1000)) = true) by (vm_compute; reflexivity).
  rewrite forallb_forall in H. specialize (H (Z.of_nat n)).
  assert (Hin : In (Z.of_nat n) (map Z.of_nat (seq 1 1000))).
  { apply in_map. apply in_seq. lia. }
  specialize (H Hin). apply andb_prop in H as [H H3]. apply andb_prop in H as [H1 H2].
  apply Z.eqb_eq in H1, H2, H3.
  rewrite H1, H2, H3, !Nat2Z.inj_div, !Nat2Z.inj_mul. split; [|split]; reflexivity.
Qed.

Lemma nth_error_lt (l : list Q) i : (i < length l)%nat -> exists x, nth_error l i = Some x.
Proof.
  intros H. destruct (nth_error l i) as [x|] eqn:E; [eauto|].
  apply nth_error_None in E. lia.
Qed.

Lemma calculate_percentiles_spec (data : list Q) :
  data <> [] -> (length data <= 1000)%nat ->
  let sd := sorted_samples data in
  let n := length data in
  exists r, calculate_percentiles data = Some r /\
    nth_error sd 0 = Some (s_min r) /\ nth_error sd (n - 1) = Some (s_max r) /\
    nth_error sd (n / 2) = Some (s_p50 r) /\
    nth_error sd (if Nat.leb 20 n then n * 95 / 100 else n - 1) = Some (s_p95 r) /\
    nth_error sd (if Nat.leb 100 n then n * 99 / 100 else n - 1) = Some (s_p99 r).
Proof.
  intros Hne Hle sd n.
  assert (Hlen : length sd = n) by (symmetry; apply Permutation_length, sorted_samples_perm).
  assert (Hn1 : (1 <= n)%nat) by (destruct data; [congruence|simpl in *; lia]).
  assert (Hsd : sd <> []) by (intros E; rewrite E in Hlen; simpl in Hlen; lia).
  destruct (float_indices n ltac:(lia)) as [F50 [F95 F99]].
  destruct (nth_error_lt sd 0 ltac:(lia)) as [mn Emn].
  destruct (nth_error_lt sd (n - 1) ltac:(lia)) as [mx Emx].
  destruct (nth_error_lt sd (n / 2) ltac:(apply Nat.Div0.div_lt_upper_bound; lia)) as [a50 E50].
  destruct (nth_error_lt sd (if Nat.leb 20 n then n * 95 / 100 else n - 1)) as [a95 E95].
  { destruct (Nat.leb 20 n); [apply Nat.Div0.div_lt_upper_bound|]; lia. }
  destruct (nth_error_lt sd (if Nat.leb 100 n then n * 99 / 100 else n - 1)) as [a99 E99].
  { destruct (Nat.leb 100 n); [apply Nat.Div0.div_lt_upper_bound|]; lia. }
  exists (mkSummary (fold_left Qplus data 0%Q / inject_Z (Z.of_nat n)) mn mx a50 a95 a99).
  split; [|split; [exact Emn|split; [exact Emx|split; [exact E50|split; [exact E95|exact E99]]]]].
  unfold calculate_percentiles. destruct data as [|d0 dr]; [congruence|].
  fold sd. cbv zeta. rewrite Hlen.
  change 0 with (Z.of_nat 0). rewrite py_index_nat, Emn.
  rewrite (py_index_last sd Hsd), Hlen, Emx.
  rewrite F50, py_index_nat, E50.
  destruct (Nat.leb 20 n) eqn:L20; destruct (Nat.leb 100 n) eqn:L100.
  - apply Nat.leb_le in L20, L100.
    replace (20 <=? Z.of_nat n) with true by (symmetry; apply Z.leb_le; lia).
    replace (100 <=? Z.of_nat n) with true by (symmetry; apply Z.leb_le; lia).
    rewrite F95, py_index_nat, E95, F99, py_index_nat, E99. reflexivity.
  - apply Nat.leb_le in L20. apply Nat.leb_gt in L100.
    replace (20 <=? Z.of_nat n) with true by (symmetry; apply Z.leb_le; lia).
    replace (100 <=? Z.of_nat n) with false by (symmetry; apply Z.leb_gt; lia).
    rewrite F95, py_index_nat, E95. replace a99 with mx by congruence. reflexivity.
  - apply Nat.leb_gt in L20. apply Nat.leb_le in L100. lia.
  - apply Nat.leb_gt in L20, L100.
    replace (20 <=? Z.of_nat n) with false by (symmetry; apply Z.leb_gt; lia).
    replace (100 <=? Z.of_nat n) with false by (symmetry; apply Z.leb_gt; lia).
    replace a95 with mx by congruence. replace a99 with mx by congruence. reflexivity.
Qed.

End MetricsFacts.

(* ------------------------------------------------------------------ *)
(** ** Claims about [LRUCache] *)

Import F64 LRU LRUFacts.

Section LRUClaims.
Context {V : Type}.

(** C2 (as amended): whatever the sequence of [get], [set], [clear] and
    [cleanup_expired] calls, the number of stored entries never exceeds
    [max(max_size, 0)]; in particular it never exceeds [max_size] when
    [max_size >= 0]. *)
Theorem lru_capacity_invariant (mx dttl : Z) (ops : list (op V)) :
  Z.of_nat (length (cache (run (init mx dttl) ops))) <= Z.max 0 mx.
Proof.
  destruct (run_init_capacity mx dttl ops) as [Hc Hmx].
  unfold within_capacity in Hc. rewrite Hmx in Hc. exact Hc.
Qed.

(** C3: on a reachable cache, a [get] that finds an entry whose age exceeds
    its ttl returns [None], removes the entry (the size reported by
    [get_stats] drops by one, a later [get] misses again) and counts one
    miss; a [get] that finds an unexpired entry returns its value and counts
    one hit. *)
Theorem lru_get_expiry (mx dttl : Z) (ops : list (op V)) (key : string) (v : V)
    (t l now : Z)
    (Hin : In (key, v) (cache (run (init mx dttl) ops)))
    (Ht : timestamps (run (init mx dttl) ops) !! key = Some t)
    (Hl : ttls (run (init mx dttl) ops) !! key = Some l) :
  let s := run (init mx dttl) ops in
  (l < now - t ->
     let '(s', r) := get s key now in
     r = None /\
     st_size (get_stats s') = st_size (get_stats s) - 1 /\
     misses s' = misses s + 1 /\ hits s' = hits s /\
     (forall now', snd (get s' key now') = None /\
                   misses (fst (get s' key now')) = misses s' + 1)) /\
  (now - t <= l ->
     let '(s', r) := get s key now in
     r = Some v /\ hits s' = hits s + 1 /\ misses s' = misses s).
Proof.
  intros s. pose proof (run_init_wf mx dttl ops) as Hwf. fold s in Hwf, Hin, Ht, Hl.
  destruct Hwf as [Hnd [Hts Htl]].
  assert (Hk : In key (map fst (cache s))) by (apply (in_map fst _ (key, v)); exact Hin).
  assert (Hmem : od_mem key (cache s) = true) by (apply od_mem_In; exact Hk).
  split; intros Hage; unfold get; rewrite Hmem; simpl negb; cbv iota;
    unfold is_expired; rewrite Ht, Hl.
  - assert (E : (l <? now - t) = true) by (apply Z.ltb_lt; exact Hage). rewrite E.
    split; [reflexivity|]. split.
    { unfold get_stats, remove, with_counters, with_store; cbn [cache st_size].
      pose proof (length_od_pop_In key (cache s) Hnd Hk). lia. }
    split; [reflexivity|]. split; [reflexivity|].
    intros now'. unfold get.
    assert (Hm : od_mem key (cache (with_counters (remove s key) (hits (remove s key))
                   (misses (remove s key) + 1))) = false).
    { apply od_mem_false. apply (remove_notin s key). }
    rewrite Hm. split; reflexivity.
  - assert (E : (l <? now - t) = false) by (apply Z.ltb_ge; exact Hage). rewrite E.
    split; [|split; reflexivity].
    destruct (keys_move_to_end key v (cache s) Hnd Hin) as [H1 _].
    apply od_lookup_In; [exact H1|].
    rewrite (od_move_to_end_In key v (cache s) Hnd Hin). apply in_or_app. right. left. reflexivity.
Qed.

(** C10: with [max_size <= 0] (so [max_size = 0], and also any negative
    [max_size]) every [set] on a reachable cache (in particular the first
    one) raises [StopIteration] from [next] on the empty dict and leaves the
    state unchanged; with [max_size >= 1], [set] never raises and always
    stores the new entry. *)
Theorem lru_set_total_iff_capacity_pos :
  (forall (mx dttl : Z) (ops : list (op V)) key (value : V) ttl now,
     mx <= 0 ->
     let s := run (init mx dttl) ops in
     set s key value ttl now = (s, Raise StopIteration)) /\
  (forall (s : LRUCache V) key value ttl now,
     1 <= max_size s ->
     let '(s', r) := set s key value ttl now in
     r = Ok tt /\ od_lookup key (cache s') = Some value /\
     timestamps s' !! key = Some now).
Proof.
  split.
  - intros mx dttl ops key value ttl now Hle s.
    destruct (run_nonpos_empty mx dttl ops Hle) as [Hc [Hts Htl]]. fold s in Hc, Hts, Htl.
    destruct (run_init_capacity mx dttl ops) as [_ Hmx]. fold s in Hmx.
    rewrite set_unfold. unfold set_prepare. rewrite Hc. simpl od_mem. cbv iota zeta.
    rewrite Hc, Hmx. simpl. replace (mx <=? Z.of_nat 0) with true
      by (symmetry; apply Z.leb_le; simpl; exact Hle).
    unfold with_store. rewrite <- Hc.
    clearbody s. destruct s; reflexivity.
  - intros s key value ttl now Hmx. rewrite set_unfold. cbv zeta.
    assert (Hn1 : ~ In key (map fst (cache (set_prepare s key)))).
    { unfold set_prepare. destruct (od_mem key (cache s)) eqn:E;
        [apply remove_notin | apply od_mem_false, E]. }
    assert (Hmx1 : max_size (set_prepare s key) = max_size s)
      by (unfold set_prepare; destruct (od_mem key (cache s)); reflexivity).
    remember (set_prepare s key) as s1 eqn:Hs1. clear Hs1.
    pose proof (evict_loop_spec (max_size s1) (cache s1) (timestamps s1) (ttls s1)) as Hev.
    destruct (evict_loop (max_size s1) (cache s1) (timestamps s1) (ttls s1))
      as [[[c' ts'] tl'] r].
    destruct Hev as [pre [Hc [-> [-> Hr]]]].
    destruct Hr as [[-> _]|[_ [_ Hle]]]; [|lia].
    assert (Hn' : ~ In key (map fst c'))
      by (rewrite Hc, map_app, in_app_iff in Hn1; tauto).
    split; [reflexivity|]. unfold with_store; cbn [cache timestamps].
    rewrite (od_setitem_new key value c' Hn'). split; [apply od_lookup_snoc, Hn'|].
    apply lookup_insert_eq.
Qed.

(** C7 (as amended): [get_stats] reports the exact size, [max_size], hit
    and miss counts, and [hit_rate_percent = round((hits / total) * 100, 2)]
    computed in binary64 (division first, then the product by 100, each
    correctly rounded), or [0] when no lookup happened. *)
Theorem lru_get_stats_spec (s : LRUCache V) :
  get_stats s =
  mkStats (Z.of_nat (length (cache s))) (max_size s) (hits s) (misses s)
    (if 0 <? hits s + misses s
     then round2 (mul_int (div_int (hits s) (hits s + misses s)) 100)
     else zero).
Proof.
  unfold get_stats. destruct (0 <? hits s + misses s) eqn:E; [reflexivity|].
  reflexivity.
Qed.

(** C1: (a) with capacity [max_size = n >= 2], after [set] of [n] distinct
    keys, a [get] of the first one and the [set] of one more distinct key,
    the second-inserted key is the one evicted: looking up the first key,
    the other inserted keys and the new key returns their values (nothing
    has expired at the query time [tq]), looking up the second key misses.
    (b) In general, on a reachable cache, a key that a [set] evicts is the
    least recently touched one: every other stored key was the object of a
    later [get] or [set]. *)
Theorem lru_eviction_order :
  (forall (mx dttl now tq : Z) (k0 k1 knew : string) (v0 v1 vnew : V)
          (rest : list (string * V)),
     List.NoDup (map fst ((k0, v0) :: (k1, v1) :: rest)) ->
     ~ In knew (map fst ((k0, v0) :: (k1, v1) :: rest)) ->
     Z.of_nat (length ((k0, v0) :: (k1, v1) :: rest)) = mx ->
     now <= tq <= now + dttl ->
     let s := run (init mx dttl)
                (set_all_at now ((k0, v0) :: (k1, v1) :: rest) ++
                 [OGet k0 now; OSet knew vnew None now]) in
     snd (get s k0 tq) = Some v0 /\ snd (get s k1 tq) = None /\
     (forall k v, In (k, v) rest -> snd (get s k tq) = Some v) /\
     snd (get s knew tq) = Some vnew) /\
  (forall (mx dttl : Z) (ops : list (op V)) key (value : V) ttl now e,
     let s := run (init mx dttl) ops in
     In e (map fst (cache s)) -> e <> key ->
     ~ In e (map fst (cache (fst (set s key value ttl now)))) ->
     forall k', In k' (map fst (cache s)) -> k' <> e ->
     (last_touch ops e < last_touch ops k')%nat).
Proof.
  split.
  - intros mx dttl now tq k0 k1 knew v0 v1 vnew rest Hnd Hnew Hlen Htq s.
    remember ((k0, v0) :: (k1, v1) :: rest) as entries eqn:Hent.
    destruct (run_set_all mx dttl now entries Hnd ltac:(lia)) as [Hc0 Hu0].
    remember (run (init mx dttl) (set_all_at now entries)) as s0 eqn:Hs0.
    assert (Hwf0 : wf s0) by (subst s0; apply run_init_wf).
    assert (Hmx0 : max_size s0 = mx) by (subst s0; apply run_init_capacity).
    assert (Hs : s = fst (set (fst (get s0 k0 now)) knew vnew None now)).
    { unfold s, run. rewrite fold_left_app. subst s0. reflexivity. }
    assert (Hwf : wf s) by (apply run_init_wf).
    clearbody s. subst s.
    (* the get of the first key moves it to the end *)
    subst entries. assert (Hnd' := Hnd). simpl in Hnd'.
    apply Stdlib.Lists.List.NoDup_cons_iff in Hnd' as [Hk0 Hnd1].
    apply Stdlib.Lists.List.NoDup_cons_iff in Hnd1 as [Hk1 Hnd2].
    assert (He0 : is_expired s0 k0 now = false).
    { apply (uniform_not_expired s0 k0 now dttl now Hwf0 Hu0); [rewrite Hc0; left; reflexivity|lia]. }
    pose proof (get_spec s0 k0 now Hwf0) as Hg.
    assert (Hcg : cache (fst (get s0 k0 now)) = ((k1, v1) :: rest) ++ [(k0, v0)]).
    { unfold get. assert (Hm : od_mem k0 (cache s0) = true)
        by (apply od_mem_In; rewrite Hc0; left; reflexivity).
      rewrite Hm, He0. simpl.
      rewrite (od_move_to_end_In k0 v0 (cache s0)); [|apply Hwf0|rewrite Hc0; left; reflexivity].
      rewrite Hc0. rewrite od_pop_head by exact Hk0. reflexivity. }
    pose proof (uniform_get s0 k0 now dttl now Hu0) as Hug.
    destruct (get s0 k0 now) as [sg rg]. simpl in Hcg, Hug, Hwf |- *.
    destruct Hg as [Hwfg [Hmxg _]].
    (* the set of the new key evicts the head, the second-inserted key *)
    assert (Hnewg : ~ In knew (map fst (cache sg))).
    { rewrite Hcg. simpl. rewrite map_app. intros H. apply Hnew. simpl.
      rewrite in_app_iff in H. simpl in H. tauto. }
    assert (Hcf : cache (fst (set sg knew vnew None now)) =
                  rest ++ [(k0, v0); (knew, vnew)]).
    { rewrite set_unfold. cbv zeta. unfold set_prepare.
      pose proof Hnewg as Hm. apply od_mem_false in Hm. rewrite Hm.
      pose proof (evict_loop_spec (max_size sg) (cache sg) (timestamps sg) (ttls sg)) as Hev.
      destruct (evict_loop (max_size sg) (cache sg) (timestamps sg) (ttls sg))
        as [[[c' ts'] tl'] r].
      destruct Hev as [pre [Hc' [_ [_ Hr]]]].
      assert (Hlg : Z.of_nat (length (cache sg)) = mx).
      { rewrite Hcg. simpl. rewrite length_app. simpl. simpl in Hlen. lia. }
      rewrite Hmxg, Hmx0 in Hr.
      destruct Hr as [[-> [Hlt [_ Hpre]]]|[_ [_ Hle]]]; [|simpl in Hlen; lia].
      specialize (Hpre ltac:(lia)).
      rewrite Hcg in Hc'. simpl.
      destruct pre as [|x [|y pre']]; simpl in Hpre; try lia.
      - simpl in Hc'. rewrite <- Hc' in Hlt. rewrite <- Hcg in Hlt. lia.
      - simpl in Hc'. injection Hc' as Hx Hc''. subst x c'.
        rewrite od_setitem_new.
        + rewrite <- app_assoc. reflexivity.
        + intros H. apply Hnewg. rewrite Hcg. simpl. right. exact H. }
    assert (Huf : uniform now dttl (fst (set sg knew vnew None now))).
    { apply uniform_set, Hug. }
    remember (fst (set sg knew vnew None now)) as sf eqn:Hsf.
    assert (Hget : forall k v, In (k, v) (cache sf) -> snd (get sf k tq) = Some v).
    { intros k v Hin. apply get_hit; [exact Hwf|exact Hin|].
      apply (uniform_not_expired sf k now dttl tq Hwf Huf); [|lia].
      apply (in_map fst _ (k, v)), Hin. }
    split; [apply Hget; rewrite Hcf; apply in_or_app; right; left; reflexivity|].
    split.
    { apply get_absent. rewrite Hcf, map_app. simpl. rewrite in_app_iff. simpl.
      intros [H|[H|[H|H]]]; [exact (Hk1 H)| |subst; apply Hnew; simpl; tauto|exact H].
      subst. apply Hk0. left. reflexivity. }
    split.
    + intros k v Hin. apply Hget. rewrite Hcf. apply in_or_app. left. exact Hin.
    + apply Hget. rewrite Hcf. apply in_or_app. right. right. left. reflexivity.
  - intros mx dttl ops key value ttl now e s He Hne Hgone k' Hk' Hne'.
    pose proof (run_init_wf mx dttl ops) as Hwf. fold s in Hwf.
    destruct (run_init_capacity mx dttl ops) as [Hcap Hmx]. fold s in Hcap, Hmx.
    pose proof (run_recency_sorted mx dttl ops) as Hsort. fold s in Hsort.
    unfold within_capacity in Hcap. rewrite Hmx in Hcap.
    destruct (set_prepare_spec s key Hwf) as [_ [Hn1 [Hmx1 [_ [_ [_ [Hl1 [Hin1 Hout1]]]]]]]].
    assert (He1 : In e (map fst (cache (set_prepare s key)))).
    { unfold set_prepare. destruct (od_mem key (cache s)); [|exact He].
      apply In_od_pop. split; assumption. }
    rewrite set_unfold in Hgone. cbv zeta in Hgone.
    remember (set_prepare s key) as s1 eqn:Hq.
    pose proof (evict_loop_spec (max_size s1) (cache s1) (timestamps s1) (ttls s1)) as Hev.
    destruct (evict_loop (max_size s1) (cache s1) (timestamps s1) (ttls s1))
      as [[[c' ts'] tl'] r].
    destruct Hev as [pre [Hc [_ [_ Hr]]]].
    destruct Hr as [[-> [Hlt [Hnil Hpre]]]|[_ [-> Hle]]].
    + simpl in Hgone. unfold with_store in Hgone. cbn [cache] in Hgone.
      assert (Hn' : ~ In key (map fst c'))
        by (rewrite Hc, map_app, in_app_iff in Hn1; tauto).
      rewrite od_setitem_new in Hgone by exact Hn'.
      rewrite map_app, in_app_iff in Hgone.
      assert (Hep : In e (map fst pre)).
      { rewrite Hc, map_app, in_app_iff in He1. tauto. }
      rewrite Hmx1, Hmx in Hlt, Hnil, Hpre.
      destruct (in_dec string_dec key (map fst (cache s))) as [Hk|Hk].
      * exfalso. specialize (Hin1 Hk).
        rewrite Hnil in Hep; [contradiction|]. lia.
      * specialize (Hout1 Hk). rewrite Hout1 in Hc.
        destruct pre as [|[e' ve] [|y pre']]; simpl in Hep, Hpre; try contradiction; try lia.
        destruct Hep as [<-|[]]. simpl in Hc.
        unfold recency_sorted in Hsort. rewrite Hc in Hsort.
        apply StronglySorted_inv in Hsort as [_ Hall].
        rewrite Hc in Hk'. simpl in Hk'. destruct Hk' as [Hk'|Hk']; [congruence|].
        apply in_map_iff in Hk' as [[k'' v''] [Heq Hin]]. simpl in Heq. subst k''.
        rewrite Stdlib.Lists.List.Forall_forall in Hall. apply (Hall _ Hin).
    + exfalso. rewrite Hmx1, Hmx in Hle.
      destruct (cache s) eqn:E; [contradiction|]. simpl in Hcap. lia.
Qed.

End LRUClaims.

(* ------------------------------------------------------------------ *)
(** ** Claims about [CacheManager], [cached_encode] and [MetricsCollector] *)

Import SHA256 PyData Metrics Manager KeyFacts ManagerFacts MetricsFacts.

Section ServiceClaims.
Context {V : Type}.

(** C4: when caching is disabled or the encoder type has no cache,
    [get_embedding] returns [None] and leaves the manager as it is,
    [set_embedding] returns without changing the manager (no cache, entry or
    counter changes), and a [get_embedding] after a [set_embedding] on the
    same encoder type and data still returns [None]. *)
Theorem manager_disabled_noop (m : manager (V:=V)) (et : string) (data : pyval) (emb : V)
    (ttl : option Z) (now now' : Z) :
  enabled m = false \/ caches m !! et = None ->
  get_embedding m et data now = (m, None) /\
  set_embedding m et data emb ttl now = (m, Ok tt) /\
  snd (get_embedding (fst (set_embedding m et data emb ttl now)) et data now') = None.
Proof.
  intros H.
  assert (Hg : forall t, get_embedding m et data t = (m, None)).
  { intros t. unfold get_embedding. destruct H as [H|H]; [rewrite H; reflexivity|].
    destruct (negb (enabled m)); [reflexivity|]. rewrite H. reflexivity. }
  assert (Hs : set_embedding m et data emb ttl now = (m, Ok tt)).
  { unfold set_embedding. destruct H as [H|H]; [rewrite H; reflexivity|].
    destruct (negb (enabled m)); [reflexivity|]. rewrite H. reflexivity. }
  rewrite Hs. cbn [fst snd]. rewrite !Hg. auto.
Qed.

(** C5 (as amended): let [cm] be the global manager and [cm1] the manager
    after the lookup.  The lookup adds no entry to any cache (an expired
    entry may be removed, and the hit or miss counter of the encoder's cache
    moves).  On a hit, [func] is not called, [set_embedding] is not called,
    the cached value is returned and one metrics hit is counted.  On a miss,
    one metrics miss is counted and [func] is called exactly once: if it
    raises, the exception is returned unchanged, [set_embedding] is not
    called and the manager stays [cm1]; if it returns [None], nothing is
    stored; otherwise [set_embedding] is called once with its result. *)
Theorem cached_encode_spec (et : string) (func : pyval -> py_result (option V)) (data : pyval)
    (now_get now_set : Z) (w : world (V:=V)) :
  let cm := snd (get_cache w) in
  let '(cm1, cached) := get_embedding cm et data now_get in
  let '(w', evs, res) := cached_encode et func data now_get now_set w in
  (forall ns c1, caches cm1 !! ns = Some c1 ->
     exists c0, caches cm !! ns = Some c0 /\ incl (cache c1) (cache c0)) /\
  match cached with
  | Some r =>
      w' = mkWorld (Some cm1) (record_cache_hit (metrics w)) /\ evs = [] /\
      res = Returned (Some r)
  | None =>
      match func data with
      | Raised e =>
          w' = mkWorld (Some cm1) (record_cache_miss (metrics w)) /\ evs = [ECall data] /\
          res = Raised e
      | Returned None =>
          w' = mkWorld (Some cm1) (record_cache_miss (metrics w)) /\ evs = [ECall data] /\
          res = Returned None
      | Returned (Some r) =>
          let '(cm2, o) := set_embedding cm1 et data r None now_set in
          w' = mkWorld (Some cm2) (record_cache_miss (metrics w)) /\
          evs = [ECall data; ESetEmbedding] /\
          res = match o with Ok _ => Returned (Some r) | Raise e => Raised (LRUError e) end
      end
  end.
Proof.
  unfold cached_encode.
  assert (Hm : metrics (fst (get_cache w)) = metrics w)
    by (unfold get_cache; destruct (cache_manager w); reflexivity).
  destruct (get_cache w) as [w1 cm]. cbn [fst snd] in *.
  pose proof (get_embedding_incl cm et data now_get) as Hincl.
  destruct (get_embedding cm et data now_get) as [cm1 cached]. cbn [fst] in Hincl.
  destruct cached as [r|].
  - cbn [cache_manager metrics]. rewrite Hm. split; [exact Hincl|repeat split].
  - destruct (func data) as [[r|]|e].
    + destruct (set_embedding cm1 et data r None now_set) as [cm2 o].
      destruct o; cbn [cache_manager metrics]; rewrite Hm; (split; [exact Hincl|repeat split]).
    + cbn [cache_manager metrics]. rewrite Hm. split; [exact Hincl|repeat split].
    + cbn [cache_manager metrics]. rewrite Hm. split; [exact Hincl|repeat split].
Qed.

(** C6: for every non-empty series [get_metrics] summarises (a latency
    series or an inference-time series of a collector reached by any
    sequence of calls), with [n] samples and [sd] the sorted samples:
    [p50] is [sd[n / 2]]; [p95] is [sd[floor(n * 95 / 100)]] when
    [n >= 20] and the maximum when [n < 20]; [p99] is
    [sd[floor(n * 99 / 100)]] when [n >= 100] and the maximum when
    [n < 100]; [min] and [max] are the smallest and the largest sample. *)
Theorem percentiles_spec (ops : list mop) (k : string) (data : list Q) :
  (latencies (mrun collector_init ops) !! k = Some data \/
   inference_times (mrun collector_init ops) !! k = Some data) ->
  data <> [] ->
  let sd := sorted_samples data in
  let n := length data in
  Sorted Qle sd /\ Permutation data sd /\
  exists r, calculate_percentiles data = Some r /\
    nth_error sd (n / 2) = Some (s_p50 r) /\
    ((20 <= n)%nat -> nth_error sd (n * 95 / 100) = Some (s_p95 r)) /\
    ((n < 20)%nat -> s_p95 r = s_max r) /\
    ((100 <= n)%nat -> nth_error sd (n * 99 / 100) = Some (s_p99 r)) /\
    ((n < 100)%nat -> s_p99 r = s_max r) /\
    In (s_min r) data /\ (forall x, In x data -> (s_min r <= x)%Q) /\
    In (s_max r) data /\ (forall x, In x data -> (x <= s_max r)%Q).
Proof.
  intros Hk Hne. cbv zeta.
  assert (Hle : (length data <= 1000)%nat).
  { destruct (mrun_init_capped ops) as [H1 H2].
    destruct Hk as [Hk|Hk]; [specialize (H1 k)|specialize (H2 k)];
      unfold series, max_latency_samples in *; rewrite Hk in *; assumption. }
  pose proof (calculate_percentiles_spec data Hne Hle) as Hspec. cbv zeta in Hspec.
  destruct Hspec as [r [Hr [Emn [Emx [E50 [E95 E99]]]]]].
  pose proof (sorted_samples_perm data) as Hperm.
  pose proof (sorted_samples_strongly data) as Hss.
  set (sd := sorted_samples data) in *. set (n := length data) in *.
  assert (Hlen : length sd = n) by (symmetry; apply Permutation_length, Hperm).
  assert (Hsd : sd <> []) by (intros E; rewrite E in Hperm; apply Permutation_sym, Permutation_nil in Hperm; congruence).
  split; [apply sorted_samples_sorted|]. split; [exact Hperm|].
  exists r. split; [exact Hr|]. split; [exact E50|].
  split; [intros H; rewrite (proj2 (Nat.leb_le _ _) H) in E95; exact E95|].
  split; [intros H; rewrite (proj2 (Nat.leb_gt _ _) H) in E95; congruence|].
  split; [intros H; rewrite (proj2 (Nat.leb_le _ _) H) in E99; exact E99|].
  split; [intros H; rewrite (proj2 (Nat.leb_gt _ _) H) in E99; congruence|].
  assert (Hin : forall x, In x data <-> In x sd).
  { intros x. split; apply Permutation_in; [exact Hperm|apply Permutation_sym, Hperm]. }
  split; [|split; [|split]].
  - apply Hin. eapply nth_error_In. exact Emn.
  - intros x Hx. apply Hin in Hx. clearbody sd. destruct sd as [|y l]; [congruence|].
    cbn in Emn. injection Emn as <-. apply (SS_head_le y l Hss x Hx).
  - apply Hin. eapply nth_error_In. exact Emx.
  - intros x Hx. apply Hin in Hx. clearbody sd.
    destruct (exists_last Hsd) as [l [z Ez]]. subst sd.
    rewrite length_app in Hlen. cbn in Hlen.
    rewrite nth_error_app2 in Emx by lia.
    replace (n - 1 - length l)%nat with 0%nat in Emx by lia. cbn in Emx.
    injection Emx as <-. apply (SS_last_ge l z Hss x Hx).
Qed.

(** C8: along any sequence of calls from a fresh collector with no
    [reset] (in particular any sequence of [record_request_start] and
    [record_request_end] calls), the active count is never negative and the
    peak count is the maximum active count reached; [record_request_end]
    leaves an active count of [0] at [0]; three starts give active [3] and
    peak [3], and two more ends give active [1] with peak still [3]. *)
Theorem active_requests_spec (ops : list mop) :
  Forall (fun o => o <> MReset) ops ->
  Forall (fun a => 0 <= a) (active_trace collector_init ops) /\
  peak_active_requests (mrun collector_init ops) = fold_right Z.max 0 (active_trace collector_init ops) /\
  (forall m ep sc lat, active_requests m = 0 -> active_requests (record_request_end m ep sc lat) = 0) /\
  (forall ep1 sc1 lat1 ep2 sc2 lat2,
     let m3 := mrun collector_init [MStart; MStart; MStart] in
     let m5 := mrun m3 [MEnd ep1 sc1 lat1; MEnd ep2 sc2 lat2] in
     active_requests m3 = 3 /\ peak_active_requests m3 = 3 /\
     active_requests m5 = 1 /\ peak_active_requests m5 = 3).
Proof.
  intros Hops. destruct (active_peak_trace ops Hops) as [_ [Htr Hpk]].
  split; [exact Htr|]. split; [exact Hpk|]. split.
  - intros m ep sc lat H. unfold record_request_end. cbn [active_requests]. lia.
  - intros. cbv zeta.
    cbn [mrun fold_left mstep record_request_start record_request_end collector_init
         active_requests peak_active_requests].
    repeat split; reflexivity.
Qed.

(** C9: the cache key is a function of the encoder type and the input, made
    of 32 lowercase hex digits; a mapping input (with distinct keys) gives the
    same key whatever the order of its items; two distinct encoder types
    hash distinct strings for the same input; a [set_embedding] under
    ["motion"] does not change what [get_embedding] under ["gesture"]
    returns, so on a new manager the ["gesture"] lookup of the same input
    misses. *)
Theorem cache_key_derivation :
  (forall et data,
     String.length (generate_cache_key et data) = 32%nat /\
     Forall (fun c => In c hex_chars) (list_ascii_of_string (generate_cache_key et data))) /\
  (forall et d1 d2, List.NoDup (map fst d1) -> Permutation d1 d2 ->
     generate_cache_key et (PDict d1) = generate_cache_key et (PDict d2)) /\
  (forall et1 et2 data, et1 <> et2 -> combined_input et1 data <> combined_input et2 data) /\
  (forall (m : manager (V:=V)) data emb ttl now now',
     snd (get_embedding (fst (set_embedding m "motion" data emb ttl now)) "gesture" data now') =
     snd (get_embedding m "gesture" data now')) /\
  (forall cfg data (emb : V) ttl now now',
     snd (get_embedding (fst (set_embedding (manager_init cfg) "motion" data emb ttl now))
            "gesture" data now') = None).
Proof.
  assert (Hiso : forall (m : manager (V:=V)) data emb ttl now now',
     snd (get_embedding (fst (set_embedding m "motion" data emb ttl now)) "gesture" data now') =
     snd (get_embedding m "gesture" data now')).
  { intros. apply get_embedding_same; [apply set_embedding_enabled|].
    apply set_embedding_other. discriminate. }
  split; [apply generate_cache_key_shape|].
  split.
  { intros et d1 d2 Hnd Hp. unfold generate_cache_key, combined_input, serialize.
    rewrite (json_dumps_dict_perm d1 d2 Hnd Hp). reflexivity. }
  split.
  { intros et1 et2 data Hne E. apply Hne. unfold combined_input in E.
    exact (append_cancel_r _ _ _ E). }
  split; [exact Hiso|].
  intros cfg data emb ttl now now'. rewrite Hiso.
  unfold get_embedding. rewrite manager_init_gesture.
  destruct (negb _); reflexivity.
Qed.

End ServiceClaims.

(* ------------------------------------------------------------------ *)
(** ** Instances of the claims on concrete calls *)

Local Open Scope string_scope.
Local Open Scope Z_scope.

(** C1 (a) with [max_size = 3]: after [set a; set b; set c; get a; set d],
    [b] is gone and [a], [c], [d] are still there. *)
Lemma lru_eviction_order_witness :
  snd (get (run (init (V:=Z) 3 10)
              (set_all_at 0 [("a", 1); ("b", 2); ("c", 3)] ++ [OGet "a" 0; OSet "d" 4 None 0]))
         "b" 5) = None /\
  snd (get (run (init (V:=Z) 3 10)
              (set_all_at 0 [("a", 1); ("b", 2); ("c", 3)] ++ [OGet "a" 0; OSet "d" 4 None 0]))
         "a" 5) = Some 1.
Proof.
  destruct (proj1 (lru_eviction_order (V:=Z)) 3 10 0 5 "a" "b" "d" 1 2 4 [("c", 3)])
    as [Ha [Hb _]].
  - simpl. repeat (apply List.NoDup_cons; [simpl; intuition congruence|]). apply List.NoDup_nil.
  - simpl. intuition congruence.
  - reflexivity.
  - lia.
  - split; [exact Hb|exact Ha].
Defined.

(** C3 with an entry set at time [0] with [ttl = 1]: read at time [2] it
    misses, read at time [1] it hits. *)
Lemma lru_get_expiry_witness :
  In ("a", 7) (cache (run (init (V:=Z) 10 100) [OSet "a" 7 (Some 1) 0])) /\
  timestamps (run (init (V:=Z) 10 100) [OSet "a" 7 (Some 1) 0]) !! "a" = Some 0 /\
  ttls (run (init (V:=Z) 10 100) [OSet "a" 7 (Some 1) 0]) !! "a" = Some 1 /\
  snd (get (run (init (V:=Z) 10 100) [OSet "a" 7 (Some 1) 0]) "a" 2) = None /\
  snd (get (run (init (V:=Z) 10 100) [OSet "a" 7 (Some 1) 0]) "a" 1) = Some 7.
Proof.
  assert (H1 : In ("a", 7) (cache (run (init (V:=Z) 10 100) [OSet "a" 7 (Some 1) 0])))
    by (vm_compute; left; reflexivity).
  assert (H2 : timestamps (run (init (V:=Z) 10 100) [OSet "a" 7 (Some 1) 0]) !! "a" = Some 0)
    by (vm_compute; reflexivity).
  assert (H3 : ttls (run (init (V:=Z) 10 100) [OSet "a" 7 (Some 1) 0]) !! "a" = Some 1)
    by (vm_compute; reflexivity).
  split; [exact H1|]. split; [exact H2|]. split; [exact H3|].
  destruct (lru_get_expiry 10 100 [OSet "a" 7 (Some 1) 0] "a" 7 0 1 2 H1 H2 H3) as [Hexp _].
  destruct (lru_get_expiry 10 100 [OSet "a" 7 (Some 1) 0] "a" 7 0 1 1 H1 H2 H3) as [_ Hok].
  specialize (Hexp ltac:(lia)). specialize (Hok ltac:(lia)). cbv zeta in Hexp, Hok.
  split.
  - destruct (get _ "a" 2) as [s' r]. exact (proj1 Hexp).
  - destruct (get _ "a" 1) as [s' r]. exact (proj1 Hok).
Defined.

(** C10 with [max_size = 1]: the first [set] succeeds; with
    [max_size = -1]: the first [set] raises [StopIteration]. *)
Lemma lru_set_total_witness :
  (snd (set (init (V:=Z) 1 0) "a" 1 None 0) = Ok tt /\
   od_lookup "a" (cache (fst (set (init (V:=Z) 1 0) "a" 1 None 0))) = Some 1) /\
  set (run (init (V:=Z) (-1) 0) []) "a" 1 None 0 = (run (init (-1) 0) [], Raise StopIteration).
Proof.
  split.
  - pose proof (proj2 (lru_set_total_iff_capacity_pos (V:=Z)) (init 1 0) "a" 1 None 0
                  ltac:(simpl; lia)) as H.
    destruct (set (init 1 0) "a" 1 None 0) as [s' r]. destruct H as [Hr [Hl _]].
    split; [exact Hr|exact Hl].
  - exact (proj1 (lru_set_total_iff_capacity_pos (V:=Z)) (-1) 0 [] "a" 1 None 0
             ltac:(lia)).
Defined.

(** C4 on a manager built with [{enabled: false}]. *)
Lemma manager_disabled_noop_witness :
  enabled (manager_init (V:=Z) (Some (mkConfig None None (Some false)))) = false /\
  snd (get_embedding
         (fst (set_embedding (manager_init (V:=Z) (Some (mkConfig None None (Some false))))
                 "motion" (PInt 1) 5 None 0))
         "motion" (PInt 1) 10) = None.
Proof.
  split; [reflexivity|].
  apply (manager_disabled_noop (manager_init (Some (mkConfig None None (Some false))))
           "motion" (PInt 1) 5 None 0 10).
  left. reflexivity.
Defined.

(** C6 on an endpoint with the three latencies [5], [3] and [9]: [p95]
    and [p99] are the maximum, [p50] is the median. *)
Lemma percentiles_spec_witness :
  latencies (mrun collector_init [MEnd "enc" 200 5; MEnd "enc" 200 3; MEnd "enc" 200 9])
    !! "enc" = Some [5; 3; 9]%Q /\
  exists r, calculate_percentiles [5; 3; 9]%Q = Some r /\
    s_p95 r = s_max r /\ s_p99 r = s_max r /\ nth_error [3; 5; 9]%Q 1 = Some (s_p50 r).
Proof.
  assert (H : latencies (mrun collector_init [MEnd "enc" 200 5; MEnd "enc" 200 3; MEnd "enc" 200 9])
                !! "enc" = Some [5; 3; 9]%Q) by (vm_compute; reflexivity).
  split; [exact H|].
  destruct (percentiles_spec [MEnd "enc" 200 5; MEnd "enc" 200 3; MEnd "enc" 200 9]
              "enc" [5; 3; 9]%Q (or_introl H) ltac:(discriminate))
    as [_ [_ [r [Hr [H50 [_ [H95 [_ [H99 _]]]]]]]]].
  exists r. split; [exact Hr|].
  split; [apply H95; simpl; lia|]. split; [apply H99; simpl; lia|].
  exact H50.
Defined.

(** C8 on [start; start; end]: the peak is the largest active count. *)
Lemma active_requests_spec_witness :
  Forall (fun o => o <> MReset) [MStart; MStart; MEnd "x" 200 1] /\
  peak_active_requests (mrun collector_init [MStart; MStart; MEnd "x" 200 1]) =
  fold_right Z.max 0 (active_trace collector_init [MStart; MStart; MEnd "x" 200 1]).
Proof.
  assert (H : Forall (fun o => o <> MReset) [MStart; MStart; MEnd "x" 200 1])
    by (repeat constructor; discriminate).
  split; [exact H|]. apply (active_requests_spec _ H).
Defined.

(** C2: with [max_size = -1] the empty cache already holds more than
    [max_size] entries. *)
Lemma lru_capacity_negative_cex :
  ~ (Z.of_nat (length (cache (run (init (V:=Z) (-1) 10) [OGet "a" 0]))) <= -1).
Proof. intros H. vm_compute in H. apply H. reflexivity. Qed.

(** C7: after 137 misses and 23 hits, [get_stats] reports [14.37]
    ([23 / 160 * 100] is [14.374999999999998] in binary64), while
    [round(100 * 23 / 160, 2)] is [14.38]. *)
Lemma lru_hit_rate_rounding_cex :
  hits (run (init (V:=Z) 10 100)
          (repeat (OGet "a" 0) 137 ++ [OSet "a" 1 None 0] ++ repeat (OGet "a" 0) 23)) = 23 /\
  misses (run (init (V:=Z) 10 100)
          (repeat (OGet "a" 0) 137 ++ [OSet "a" 1 None 0] ++ repeat (OGet "a" 0) 23)) = 137 /\
  feqb (st_hit_rate_percent (get_stats (run (init (V:=Z) 10 100)
          (repeat (OGet "a" 0) 137 ++ [OSet "a" 1 None 0] ++ repeat (OGet "a" 0) 23))))
       (of_frac 1437 100) = true /\
  feqb (round2 (div_int (100 * 23) (23 + 137))) (of_frac 1438 100) = true /\
  feqb (st_hit_rate_percent (get_stats (run (init (V:=Z) 10 100)
          (repeat (OGet "a" 0) 137 ++ [OSet "a" 1 None 0] ++ repeat (OGet "a" 0) 23))))
       (round2 (div_int (100 * 23) (23 + 137))) = false.
Proof. vm_compute. repeat split. Qed.

(** C5: when the encode function raises on a miss, the manager is not the
    one before the call: the miss counter of the ["motion"] cache went from
    [0] to [1]. *)
Lemma cached_encode_raise_cex :
  ~ (cache_manager (fst (fst (cached_encode (V:=list Z) "motion"
         (fun _ => Raised (UserError "RuntimeError")) (PInt 7) 0 0
         (mkWorld (Some (manager_init None)) collector_init)))) =
     Some (manager_init None)).
Proof.
  intros H.
  apply (f_equal (fun o => match o with
                           | Some m => option_map (@misses (list Z)) (caches m !! "motion")
                           | None => None
                           end)) in H.
  vm_compute in H. discriminate.
Qed.

(* ------------------------------------------------------------------ *)
(** ** Further proofs about [LRUCache] and [CacheManager] *)

Module CacheProps.
Import F64 LRU LRUFacts SHA256 PyData Manager ManagerOps KeyFacts ManagerFacts.
Local Open Scope list_scope.

Section CacheProps.
Context {V : Type}.

Lemma od_lookup_pop_app k (c l : list (string * V)) : od_lookup k (od_pop k c ++ l) = od_lookup k l.
Proof.
  induction c as [|[k' v'] c IH]; [reflexivity|].
  unfold od_pop in *. cbn [List.filter fst].
  destruct (String.eqb_spec k' k) as [->|Hne]; cbn [negb]; [exact IH|].
  cbn [app od_lookup]. destruct (String.eqb_spec k' k); [contradiction|exact IH].
Qed.

Lemma od_lookup_move_to_end k (c : list (string * V)) v :
  od_lookup k c = Some v -> od_lookup k (od_move_to_end k c) = Some v.
Proof.
  intros H. unfold od_move_to_end. rewrite H, od_lookup_pop_app. cbn.
  rewrite String.eqb_refl. reflexivity.
Qed.

Lemma get_params (s : LRUCache V) k now :
  max_size (fst (get s k now)) = max_size s /\ default_ttl (fst (get s k now)) = default_ttl s.
Proof. unfold get. destruct (negb _); [|destruct (is_expired _ _ _)]; split; reflexivity. Qed.

Lemma set_prepare_params (s : LRUCache V) key :
  max_size (set_prepare s key) = max_size s /\ default_ttl (set_prepare s key) = default_ttl s /\
  hits (set_prepare s key) = hits s /\ misses (set_prepare s key) = misses s.
Proof. unfold set_prepare. destruct (od_mem key (cache s)); repeat split. Qed.

(** With [max_size >= 1], [set] succeeds and stores the entry with its
    timestamp and ttl, leaving the counters. *)
Lemma set_pos_spec (s : LRUCache V) key value ttl now :
  1 <= max_size s ->
  let '(s', r) := set s key value ttl now in
  r = Ok tt /\ od_lookup key (cache s') = Some value /\
  timestamps s' !! key = Some now /\
  ttls s' !! key = Some (match ttl with Some l => l | None => default_ttl s end) /\
  max_size s' = max_size s /\ default_ttl s' = default_ttl s /\
  hits s' = hits s /\ misses s' = misses s.
Proof.
  intros Hmx. rewrite set_unfold. cbv zeta.
  assert (Hn1 : ~ In key (map fst (cache (set_prepare s key)))).
  { unfold set_prepare. destruct (od_mem key (cache s)) eqn:E;
      [apply remove_notin | apply od_mem_false, E]. }
  destruct (set_prepare_params s key) as [Hmx1 [Hd1 [Hh1 Hm1]]].
  remember (set_prepare s key) as s1 eqn:Hs1. clear Hs1.
  pose proof (evict_loop_spec (max_size s1) (cache s1) (timestamps s1) (ttls s1)) as Hev.
  destruct (evict_loop (max_size s1) (cache s1) (timestamps s1) (ttls s1))
    as [[[c' ts'] tl'] r].
  destruct Hev as [pre [Hc [-> [-> Hr]]]].
  destruct Hr as [[-> _]|[_ [_ Hle]]]; [|lia].
  assert (Hn' : ~ In key (map fst c'))
    by (rewrite Hc, map_app, in_app_iff in Hn1; tauto).
  unfold with_store; cbn [cache timestamps ttls max_size default_ttl hits misses].
  rewrite (od_setitem_new key value c' Hn').
  split; [reflexivity|]. split; [apply od_lookup_snoc, Hn'|].
  split; [apply lookup_insert_eq|]. split; [rewrite lookup_insert_eq, Hd1; reflexivity|].
  repeat split; assumption.
Qed.

(** The entries after a [set] on a consistent cache within its capacity. *)
Lemma set_cache_shape (s : LRUCache V) key value ttl now :
  wf s -> within_capacity s -> 1 <= max_size s ->
  cache (fst (set s key value ttl now)) =
  (if od_mem key (cache s) then od_pop key (cache s)
   else if Z.of_nat (length (cache s)) <? max_size s then cache s else tl (cache s))
  ++ [(key, value)].
Proof.
  intros [Hnd _] Hcap Hmx. unfold within_capacity in Hcap.
  rewrite set_unfold. unfold set_prepare. cbv zeta.
  destruct (od_mem key (cache s)) eqn:Emem.
  - assert (Hk : In key (map fst (cache s))) by (apply od_mem_In, Emem).
    pose proof (length_od_pop_In key (cache s) Hnd Hk) as Hlen.
    pose proof (remove_notin s key) as Hn.
    pose proof (evict_loop_spec (max_size (remove s key)) (cache (remove s key))
                  (timestamps (remove s key)) (ttls (remove s key))) as Hev.
    destruct (evict_loop (max_size (remove s key)) (cache (remove s key))
                (timestamps (remove s key)) (ttls (remove s key))) as [[[c' ts'] tl'] r].
    destruct Hev as [pre [Hc [_ [_ Hr]]]].
    cbn [cache max_size remove with_store] in Hc, Hr, Hn.
    destruct Hr as [[-> [_ [Hpre _]]]|[_ [_ Hle]]]; [|lia].
    rewrite Hpre in Hc by lia. cbn [app] in Hc. subst c'.
    cbn [cache with_store fst]. apply od_setitem_new, Hn.
  - assert (Hk : ~ In key (map fst (cache s))) by (apply od_mem_false, Emem).
    pose proof (evict_loop_spec (max_size s) (cache s) (timestamps s) (ttls s)) as Hev.
    destruct (evict_loop (max_size s) (cache s) (timestamps s) (ttls s)) as [[[c' ts'] tl'] r].
    destruct Hev as [pre [Hc [_ [_ Hr]]]].
    destruct Hr as [[-> [Hlt [Hpre Hpre1]]]|[_ [_ Hle]]]; [|lia].
    assert (Hk' : ~ In key (map fst c')) by (rewrite Hc, map_app, in_app_iff in Hk; tauto).
    cbn [cache with_store fst]. rewrite (od_setitem_new key value c' Hk'). f_equal.
    destruct (Z.ltb_spec (Z.of_nat (length (cache s))) (max_size s)) as [Hl|Hl].
    + rewrite Hpre in Hc by exact Hl. exact (eq_sym Hc).
    + assert (Hp1 : (length pre <= 1)%nat) by (apply Hpre1; lia).
      rewrite Hc. destruct pre as [|x [|y pre']]; cbn [length app tl] in *.
      * rewrite Hc in Hl. lia.
      * reflexivity.
      * lia.
Qed.






Lemma set_then_get_hit (s : LRUCache V) key value ttl now now' :
  1 <= max_size s ->
  now' - now <= match ttl with Some l => l | None => default_ttl s end ->
  let '(s', r) := get (fst (set s key value ttl now)) key now' in
  r = Some value /\ hits s' = hits s + 1 /\ misses s' = misses s /\
  max_size s' = max_size s /\ default_ttl s' = default_ttl s.
Proof.
  intros Hmx Hage. pose proof (set_pos_spec s key value ttl now Hmx) as H.
  destruct (set s key value ttl now) as [s1 r]. cbn [fst].
  destruct H as [_ [Hl [Ht [Htl [Hmx1 [Hd1 [Hh Hm]]]]]]].
  assert (Hmem : od_mem key (cache s1) = true).
  { apply od_mem_In. apply od_lookup_Some in Hl. exact (in_map fst _ _ Hl). }
  unfold get, is_expired. rewrite Hmem, Ht, Htl. cbn [negb].
  rewrite (proj2 (Z.ltb_ge _ _) Hage). cbn.
  split; [apply od_lookup_move_to_end, Hl|]. repeat split; lia.
Qed.

Lemma get_embedding_enabled (m : manager (V:=V)) et data now :
  enabled (fst (get_embedding m et data now)) = enabled m.
Proof.
  unfold get_embedding. destruct (negb (enabled m)); [reflexivity|].
  destruct (caches m !! et) as [c|]; [|reflexivity].
  destruct (get c _ now). reflexivity.
Qed.

Lemma is_Some_insert_same {A} (m : gmap string A) k x :
  is_Some (m !! k) -> forall j, is_Some (<[k := x]> m !! j) <-> is_Some (m !! j).
Proof.
  intros Hk j. destruct (String.eqb_spec k j) as [<-|Hne].
  - rewrite lookup_insert_eq. split; [intros _; exact Hk|intros _; eexists; reflexivity].
  - rewrite lookup_insert_ne by exact Hne. reflexivity.
Qed.

Lemma get_embedding_dom (m : manager (V:=V)) et data now k :
  is_Some (caches (fst (get_embedding m et data now)) !! k) <-> is_Some (caches m !! k).
Proof.
  unfold get_embedding. destruct (negb (enabled m)); [reflexivity|].
  destruct (caches m !! et) as [c|] eqn:E; [|reflexivity].
  destruct (get c _ now) as [c' r]. cbn [fst caches].
  apply is_Some_insert_same. rewrite E. eexists; reflexivity.
Qed.

Lemma set_embedding_dom (m : manager (V:=V)) et data emb ttl now k :
  is_Some (caches (fst (set_embedding m et data emb ttl now)) !! k) <-> is_Some (caches m !! k).
Proof.
  unfold set_embedding. destruct (negb (enabled m)); [reflexivity|].
  destruct (caches m !! et) as [c|] eqn:E; [|reflexivity].
  destruct (set c _ emb ttl now) as [c' r]. cbn [fst caches].
  apply is_Some_insert_same. rewrite E. eexists; reflexivity.
Qed.

Lemma manager_clear_dom (m : manager (V:=V)) et k :
  is_Some (caches (manager_clear m et) !! k) <-> is_Some (caches m !! k).
Proof.
  assert (Hall : is_Some (caches (clear_all m) !! k) <-> is_Some (caches m !! k)).
  { unfold clear_all. cbn [caches]. rewrite lookup_fmap. apply fmap_is_Some. }
  unfold manager_clear. destruct et as [et|]; [|exact Hall].
  destruct (String.eqb et ""); [exact Hall|].
  destruct (caches m !! et) as [c|] eqn:E; [|reflexivity]. cbn [caches].
  apply is_Some_insert_same. rewrite E. eexists; reflexivity.
Qed.

Lemma cm_step_dom (m : manager (V:=V)) o :
  (forall k, is_Some (caches (cm_step m o) !! k) <-> is_Some (caches m !! k)) /\
  enabled (cm_step m o) = enabled m.
Proof.
  destruct o as [et data now|et data emb ttl now|et|now]; cbn [cm_step].
  - split; [intros k; apply get_embedding_dom|apply get_embedding_enabled].
  - split; [intros k; apply set_embedding_dom|apply set_embedding_enabled].
  - split; [intros k; apply manager_clear_dom|].
    unfold manager_clear. destruct et as [et|]; [|reflexivity].
    destruct (String.eqb et ""); [reflexivity|]. destruct (caches m !! et); reflexivity.
  - split; [|reflexivity]. intros k. unfold manager_cleanup_expired. cbn [caches].
    rewrite lookup_fmap. apply fmap_is_Some.
Qed.

Lemma cm_run_dom (m : manager (V:=V)) ops :
  (forall k, is_Some (caches (cm_run m ops) !! k) <-> is_Some (caches m !! k)) /\
  enabled (cm_run m ops) = enabled m.
Proof.
  unfold cm_run. revert m. induction ops as [|o ops IH]; intros m; [split; reflexivity|].
  cbn [fold_left]. destruct (IH (cm_step m o)) as [H1 H2]. split.
  - intros k. rewrite H1. apply (proj1 (cm_step_dom m o)).
  - rewrite H2. apply (proj2 (cm_step_dom m o)).
Qed.

Lemma manager_init_dom cfg k :
  is_Some (caches (manager_init (V:=V) cfg) !! k) <-> k = "motion" \/ k = "gesture" \/ k = "typing".
Proof.
  unfold manager_init. cbn [caches]. rewrite !lookup_insert_is_Some', lookup_empty.
  split.
  - intros [H|[H|[H|[x Hx]]]]; [subst; tauto|subst; tauto|subst; tauto|discriminate].
  - intros [H|[H|H]]; subst; tauto.
Qed.

Lemma get_embedding_params (m : manager (V:=V)) et data now c :
  caches m !! et = Some c ->
  exists c1, caches (fst (get_embedding m et data now)) !! et = Some c1 /\
    max_size c1 = max_size c /\ default_ttl c1 = default_ttl c.
Proof.
  intros Hc. unfold get_embedding. destruct (negb (enabled m)); [eauto|].
  rewrite Hc. pose proof (get_params c (generate_cache_key et data) now) as Hp.
  destruct (get c _ now) as [c' r]. cbn [fst caches] in *.
  rewrite lookup_insert_eq. eauto.
Qed.

(** On an enabled manager, an embedding stored under a known encoder type
    is returned by a lookup of the same data while its ttl runs. *)
Lemma manager_set_then_get (m : manager (V:=V)) et data emb ttl now now' c :
  enabled m = true -> caches m !! et = Some c -> 1 <= max_size c ->
  now' - now <= match ttl with Some l => l | None => default_ttl c end ->
  snd (get_embedding (fst (set_embedding m et data emb ttl now)) et data now') = Some emb.
Proof.
  intros Hen Hc Hmx Hage. unfold set_embedding. rewrite Hen, Hc. cbn [negb].
  pose proof (set_then_get_hit c (generate_cache_key et data) emb ttl now now' Hmx Hage) as H.
  destruct (set c (generate_cache_key et data) emb ttl now) as [c1 r]. cbn [fst] in *.
  unfold get_embedding. cbn [enabled caches]. rewrite lookup_insert_eq. cbn [negb].
  destruct (get c1 (generate_cache_key et data) now') as [c2 r2]. cbn [snd].
  apply H.
Qed.

End CacheProps.
End CacheProps.

(* ------------------------------------------------------------------ *)
(** * Further properties of the cache code *)

Import ManagerOps CacheProps.

Section CacheExtras.
Context {V : Type}.
Local Open Scope list_scope.

(** Reading back a stored entry ([LRUCache.set] then [LRUCache.get]): on a
    cache with [max_size >= 1], a [get] of the key just set returns the
    stored value and counts a hit while its age is at most its ttl (the one
    given to [set], else [default_ttl]); once the age exceeds the ttl the
    [get] returns [None], counts a miss and drops the entry. *)
Theorem lru_set_then_get (s : LRUCache V) key value ttl now now' :
  1 <= max_size s ->
  let ttl' := match ttl with Some l => l | None => default_ttl s end in
  let '(s2, r) := get (fst (set s key value ttl now)) key now' in
  (now' - now <= ttl' -> r = Some value /\ hits s2 = hits s + 1 /\ misses s2 = misses s) /\
  (ttl' < now' - now ->
     r = None /\ hits s2 = hits s /\ misses s2 = misses s + 1 /\ od_lookup key (cache s2) = None).
Proof.
  intros Hmx. cbv zeta.
  pose proof (set_pos_spec s key value ttl now Hmx) as H.
  destruct (set s key value ttl now) as [s1 r]. cbn [fst].
  destruct H as [_ [Hl [Ht [Htl [Hmx1 [Hd1 [Hh Hm]]]]]]].
  assert (Hmem : od_mem key (cache s1) = true).
  { apply od_mem_In. apply od_lookup_Some in Hl. exact (in_map fst _ _ Hl). }
  unfold get, is_expired. rewrite Hmem, Ht, Htl. cbn [negb].
  destruct (Z.ltb_spec (match ttl with Some l => l | None => default_ttl s end) (now' - now))
    as [Hage|Hage]; cbn; split; intros Hage'; try lia.
  - split; [reflexivity|]. split; [lia|]. split; [lia|].
    pose proof (od_lookup_pop_app key (cache s1) []) as E.
    rewrite app_nil_r in E. rewrite E. reflexivity.
  - split; [apply od_lookup_move_to_end, Hl|]. lia.
Qed.

(** Where [LRUCache.set] puts an entry: in any state reached from a fresh
    cache with [max_size >= 1], after [set] the entries are the old ones in
    their order, minus the old entry of the key if there was one, else minus
    the least recently used entry if the cache was full, followed by the new
    pair at the most recent end. *)
Theorem lru_set_entries mx dttl (ops : list (op V)) key value ttl now :
  1 <= mx ->
  cache (fst (set (run (init mx dttl) ops) key value ttl now)) =
    (if od_mem key (cache (run (init mx dttl) ops)) then od_pop key (cache (run (init mx dttl) ops))
     else if Z.of_nat (length (cache (run (init mx dttl) ops))) <? mx
          then cache (run (init mx dttl) ops) else tl (cache (run (init mx dttl) ops)))
    ++ [(key, value)].
Proof.
  intros Hmx. destruct (run_init_capacity mx dttl ops) as [Hc Hm].
  rewrite (set_cache_shape _ key value ttl now (run_init_wf mx dttl ops) Hc) by lia.
  rewrite Hm. reflexivity.
Qed.



(** [LRUCache._generate_key] returns 32 lowercase hexadecimal characters,
    and a dict argument with distinct keys gives the same key whatever the
    order of its items. *)
Theorem lru_generate_key_spec :
  (forall data,
     String.length (lru_generate_key data) = 32%nat /\
     Forall (fun c => In c hex_chars) (list_ascii_of_string (lru_generate_key data))) /\
  (forall d1 d2, List.NoDup (map fst d1) -> Permutation d1 d2 ->
     lru_generate_key (PDict d1) = lru_generate_key (PDict d2)).
Proof.
  split.
  - intros data. unfold lru_generate_key.
    destruct (sha256_shape (encode (serialize data))) as [Hl Hr]. split.
    + apply length_substring0. rewrite length_hexdigest, Hl. lia.
    + apply chars_substring0, hexdigest_chars, Hr.
  - intros d1 d2 Hnd Hp. unfold lru_generate_key, serialize.
    rewrite (json_dumps_dict_perm d1 d2 Hnd Hp). reflexivity.
Qed.

(** [CacheManager.set_embedding] then [get_embedding]: on an enabled
    manager, an embedding stored for a known encoder type whose cache has
    [max_size >= 1] is returned for the same data while its ttl runs. *)
Theorem manager_set_then_get_spec (m : manager (V:=V)) et data emb ttl now now' c :
  enabled m = true -> caches m !! et = Some c -> 1 <= max_size c ->
  now' - now <= match ttl with Some l => l | None => default_ttl c end ->
  snd (get_embedding (fst (set_embedding m et data emb ttl now)) et data now') = Some emb.
Proof. intros Hen Hc Hmx Hage. exact (manager_set_then_get m et data emb ttl now now' c Hen Hc Hmx Hage). Qed.

(** The encoder types of a [CacheManager] are fixed at creation: after any
    sequence of [get_embedding], [set_embedding], [clear] and
    [cleanup_expired] calls it has a cache for exactly "motion", "gesture"
    and "typing", its enabled flag is unchanged, and a lookup for any other
    encoder type returns [None]. *)
Theorem manager_namespaces_fixed cfg (ops : list (cm_op (V:=V))) :
  (forall k, is_Some (caches (cm_run (manager_init cfg) ops) !! k) <->
             k = "motion" \/ k = "gesture" \/ k = "typing") /\
  enabled (cm_run (manager_init cfg) ops) = enabled (manager_init (V:=V) cfg) /\
  (forall et data now, ~ (et = "motion" \/ et = "gesture" \/ et = "typing") ->
     snd (get_embedding (cm_run (manager_init cfg) ops) et data now) = None).
Proof.
  destruct (cm_run_dom (manager_init cfg) ops) as [Hd He].
  assert (Hk : forall k, is_Some (caches (cm_run (manager_init cfg) ops) !! k) <->
                         k = "motion" \/ k = "gesture" \/ k = "typing").
  { intros k. rewrite Hd. apply manager_init_dom. }
  split; [exact Hk|split; [exact He|]].
  intros et data now Hne. unfold get_embedding.
  destruct (negb _); [reflexivity|].
  destruct (caches (cm_run (manager_init cfg) ops) !! et) eqn:E; [|reflexivity].
  exfalso. apply Hne, Hk. rewrite E. eexists; reflexivity.
Qed.

(** [CacheManager.clear]: with no argument or the empty string every cache
    is emptied (its counters and [max_size] kept), so every later lookup
    misses; a known non-empty encoder type empties only that cache; an
    unknown one changes nothing. *)
Theorem manager_clear_spec (m : manager (V:=V)) :
  manager_clear m (Some "") = manager_clear m None /\
  enabled (manager_clear m None) = enabled m /\
  (forall k c', caches (manager_clear m None) !! k = Some c' ->
     exists c, caches m !! k = Some c /\ cache c' = [] /\ hits c' = hits c /\
               misses c' = misses c /\ max_size c' = max_size c) /\
  (forall et data now, snd (get_embedding (manager_clear m None) et data now) = None) /\
  (forall et c, et <> "" -> caches m !! et = Some c ->
     caches (manager_clear m (Some et)) !! et = Some (clear c) /\
     forall k, k <> et -> caches (manager_clear m (Some et)) !! k = caches m !! k) /\
  (forall et, et <> "" -> caches m !! et = None -> manager_clear m (Some et) = m).
Proof.
  split; [reflexivity|]. split; [reflexivity|].
  assert (Hall : forall k c', caches (manager_clear m None) !! k = Some c' ->
     exists c, caches m !! k = Some c /\ cache c' = [] /\ hits c' = hits c /\
               misses c' = misses c /\ max_size c' = max_size c).
  { intros k c' H. cbn [manager_clear clear_all caches] in H.
    rewrite lookup_fmap in H. destruct (caches m !! k) as [c|]; [|discriminate].
    cbn in H. injection H as <-. exists c. repeat split. }
  split; [exact Hall|]. split.
  - intros et data now. unfold get_embedding.
    destruct (negb _); [reflexivity|].
    destruct (caches (manager_clear m None) !! et) as [c'|] eqn:E; [|reflexivity].
    destruct (Hall _ _ E) as [c [_ [Hc _]]].
    unfold get. rewrite Hc. reflexivity.
  - split.
    + intros et c Hne Hc. unfold manager_clear.
      rewrite (proj2 (String.eqb_neq et "") Hne), Hc. cbn [caches].
      split; [apply lookup_insert_eq|]. intros k Hk. apply lookup_insert_ne. congruence.
    + intros et Hne Hc. unfold manager_clear.
      rewrite (proj2 (String.eqb_neq et "") Hne), Hc. reflexivity.
Qed.

End CacheExtras.

Section CachedEncodeExtras.
Context {V : Type}.
Local Open Scope list_scope.

(** Two calls of a [cached_encode] wrapper on the same data: when the first
    call misses on an enabled manager whose cache for the encoder type has
    [max_size >= 1], and the wrapped function returns a value [r], a second
    call made within [default_ttl] of the store returns [r] from the cache
    without calling any function, and the metrics count one miss and then
    one hit. *)
Theorem cached_encode_miss_then_hit (et : string) (func func' : pyval -> py_result (option V))
    (data : pyval) (r : V) (ng1 ns1 ng2 ns2 : Z) (m : manager (V:=V)) (mt : collector)
    (c : LRUCache V) :
  enabled m = true -> caches m !! et = Some c -> 1 <= max_size c ->
  snd (get_embedding m et data ng1) = None ->
  func data = Returned (Some r) -> ng2 - ns1 <= default_ttl c ->
  let '(w1, _, _) := cached_encode et func data ng1 ns1 (mkWorld (Some m) mt) in
  let '(w2, evs, res) := cached_encode et func' data ng2 ns2 w1 in
  evs = [] /\ res = Returned (Some r) /\ metrics w2 = record_cache_hit (record_cache_miss mt).
Proof.
  intros Hen Hc Hmx Hmiss Hf Hage.
  destruct (get_embedding_params m et data ng1 c Hc) as [c1 [Hc1 [Hmx1 Hd1]]].
  pose proof (get_embedding_enabled m et data ng1) as Hen1.
  unfold cached_encode at 1. cbn [get_cache cache_manager].
  destruct (get_embedding m et data ng1) as [cm1 cached] eqn:E1.
  cbn [fst snd] in Hmiss, Hc1, Hen1. subst cached.
  rewrite Hf. rewrite Hen in Hen1.
  assert (Hage1 : ng2 - ns1 <= match (@None Z) with Some l => l | None => default_ttl c1 end)
    by (cbn; lia).
  pose proof (manager_set_then_get cm1 et data r None ns1 ng2 c1 Hen1 Hc1 ltac:(lia) Hage1)
    as Hget.
  destruct (set_embedding cm1 et data r None ns1) as [cm2 o]. cbn [fst] in Hget.
  destruct o; unfold cached_encode; cbn [get_cache cache_manager metrics];
    destruct (get_embedding cm2 et data ng2) as [cm3 cached2]; cbn [snd] in Hget;
    subst cached2; cbn; auto.
Qed.

End CachedEncodeExtras.

(* ------------------------------------------------------------------ *)
(** ** Proofs about the rest of [MetricsCollector] and the decorators *)

Module MetricsProps.
Import F64 PyData Metrics Manager MetricsOps MetricsFacts.
Local Open Scope list_scope.

(** [d[k] = d[k][-max:]] when the series is too long. *)
Lemma series_trim_spec k m :
  series k (trim k m) = skipn (length (series k m) - max_latency_samples) (series k m).
Proof.
  unfold trim. cbv zeta.
  destruct (Nat.ltb_spec max_latency_samples (length (series k m))) as [H|H].
  - unfold series at 1. rewrite lookup_insert_eq. reflexivity.
  - replace (length (series k m) - max_latency_samples)%nat with 0%nat by lia. reflexivity.
Qed.

Lemma length_skipn_cap (l : list Q) :
  (length (skipn (length l - max_latency_samples) l) <= max_latency_samples)%nat.
Proof. rewrite length_skipn. lia. Qed.

Lemma skipn_cap_id (l : list Q) :
  (length l <= max_latency_samples)%nat -> skipn (length l - max_latency_samples) l = l.
Proof. intros H. replace (length l - max_latency_samples)%nat with 0%nat by lia. reflexivity. Qed.

Lemma dget_bump j k m : dget k (bump j m) = dget k m + (if String.eqb j k then 1 else 0).
Proof.
  unfold bump. unfold dget at 1. destruct (String.eqb_spec j k) as [<-|Hne].
  - rewrite lookup_insert_eq. lia.
  - rewrite lookup_insert_ne by exact Hne. unfold dget. lia.
Qed.

Lemma end_counts_dget c ep sc k :
  dget k (request_count (record_request_end_counts c ep sc)) =
    dget k (request_count c) + (if String.eqb ep k then 1 else 0) +
    (if String.eqb "total" k then 1 else 0) /\
  dget k (status_count (record_request_end_counts c ep sc)) =
    dget k (status_count c) + (if String.eqb (pyint_str sc) k then 1 else 0) /\
  dget k (error_count (record_request_end_counts c ep sc)) =
    dget k (error_count c) +
    (if 400 <=? pyint_value sc
     then (if String.eqb ep k then 1 else 0) + (if String.eqb "total" k then 1 else 0) else 0) /\
  requests_in_window (record_request_end_counts c ep sc) = requests_in_window c + 1.
Proof.
  unfold record_request_end_counts. cbn [request_count status_count error_count requests_in_window].
  rewrite !dget_bump. split; [lia|]. split; [reflexivity|]. split; [|reflexivity].
  destruct (400 <=? pyint_value sc); [rewrite !dget_bump|]; lia.
Qed.

Lemma track_request_fail name func lat s e :
  is_exception e = true ->
  (func tt = Raised e \/ exists r, func tt = Returned r /\ status_of r = Raised e) ->
  track_request name func lat s =
    (record_request_end_full (record_request_start_full s) name (IInt 500) lat, Raised e).
Proof.
  intros He [Hf|[r [Hf Hs]]]; unfold track_request; rewrite Hf; [|rewrite Hs]; cbv zeta;
    rewrite He; reflexivity.
Qed.

Lemma track_request_uncaught name func lat s e :
  is_exception e = false -> func tt = Raised e ->
  track_request name func lat s = (record_request_start_full s, Raised e).
Proof. intros He Hf. unfold track_request. rewrite Hf. cbv zeta. rewrite He. reflexivity. Qed.

Lemma pyint_str_500 : pyint_str (IInt 500) = "500".
Proof. vm_compute. reflexivity. Qed.

Lemma pyint_str_200 : pyint_str (IInt 200) = "200".
Proof. vm_compute. reflexivity. Qed.

(** The counts after a [record_request_end] with status [500]. *)
Lemma counts_500 c name k :
  dget k (status_count (record_request_end_counts c name (IInt 500))) =
    dget k (status_count c) + (if String.eqb "500" k then 1 else 0) /\
  dget k (error_count (record_request_end_counts c name (IInt 500))) =
    dget k (error_count c) + (if String.eqb name k then 1 else 0) +
    (if String.eqb "total" k then 1 else 0) /\
  dget k (request_count (record_request_end_counts c name (IInt 500))) =
    dget k (request_count c) + (if String.eqb name k then 1 else 0) +
    (if String.eqb "total" k then 1 else 0).
Proof.
  destruct (end_counts_dget c name (IInt 500) k) as [R [S [E _]]].
  rewrite pyint_str_500 in S. cbn [pyint_value] in E. split; [exact S|]. split; [|exact R].
  rewrite E. cbn. lia.
Qed.

(** The fields of [_format_uptime] *)
Lemma Qfloor_unique (x : Q) (z : Z) : (inject_Z z <= x)%Q -> (x < inject_Z z + 1)%Q -> Qfloor x = z.
Proof.
  intros H1 H2. pose proof (Qfloor_le x) as F1. pose proof (Qlt_floor x) as F2.
  rewrite inject_Z_plus in F2. change (inject_Z 1) with 1%Q in F2.
  assert (A : Qfloor x < z + 1).
  { rewrite Zlt_Qlt, inject_Z_plus. change (inject_Z 1) with 1%Q. lra. }
  assert (B : z < Qfloor x + 1).
  { rewrite Zlt_Qlt, inject_Z_plus. change (inject_Z 1) with 1%Q. lra. }
  lia.
Qed.

Lemma floor_div_bounds (x : Q) (y : Z) : 0 < y ->
  (inject_Z y * inject_Z (py_floordiv x y) <= x)%Q /\
  (x < inject_Z y * (inject_Z (py_floordiv x y) + 1))%Q.
Proof.
  intros Hy. unfold py_floordiv.
  pose proof (Qfloor_le (x / inject_Z y)) as F1. pose proof (Qlt_floor (x / inject_Z y)) as F2.
  rewrite inject_Z_plus in F2. change (inject_Z 1) with 1%Q in F2.
  assert (Hy' : (0 < inject_Z y)%Q) by (change 0%Q with (inject_Z 0); rewrite <- Zlt_Qlt; exact Hy).
  set (d := inject_Z (Qfloor (x / inject_Z y))) in *.
  assert (E : (x == inject_Z y * (x / inject_Z y))%Q)
    by (field; intros E; rewrite E in Hy'; discriminate).
  split.
  - rewrite E. apply Qmult_le_l; assumption.
  - rewrite E. apply Qmult_lt_l; assumption.
Qed.

Lemma Zlt_of_Qlt (a b : Z) : (inject_Z a < inject_Z b)%Q -> a < b.
Proof. rewrite <- Zlt_Qlt. exact (fun H => H). Qed.

Lemma uptime_fields_spec (seconds : Q) :
  let '(days, hours, minutes, secs) := uptime_fields seconds in
  0 <= hours < 24 /\ 0 <= minutes < 60 /\ 0 <= secs < 60 /\
  days * 86400 + hours * 3600 + minutes * 60 + secs = Qfloor seconds.
Proof.
  unfold uptime_fields, py_mod.
  set (x := seconds).
  set (D := py_floordiv x 86400). set (G := py_floordiv x 3600). set (F := py_floordiv x 60).
  set (h := py_floordiv (x - inject_Z (86400 * D)) 3600).
  set (m := py_floordiv (x - inject_Z (3600 * G)) 60).
  set (s := Qfloor (x - inject_Z (60 * F))).
  destruct (floor_div_bounds x 86400 eq_refl) as [B1 B1'].
  destruct (floor_div_bounds x 3600 eq_refl) as [B3 B3'].
  destruct (floor_div_bounds x 60 eq_refl) as [B5 B5'].
  destruct (floor_div_bounds (x - inject_Z (86400 * D)) 3600 eq_refl) as [B2 B2'].
  destruct (floor_div_bounds (x - inject_Z (3600 * G)) 60 eq_refl) as [B4 B4'].
  pose proof (Qfloor_le (x - inject_Z (60 * F))) as S1.
  pose proof (Qlt_floor (x - inject_Z (60 * F))) as S2.
  pose proof (Qfloor_le x) as X1. pose proof (Qlt_floor x) as X2.
  fold D G F h m s in B1, B1', B3, B3', B5, B5', B2, B2', B4, B4', S1, S2.
  rewrite !inject_Z_plus, !inject_Z_mult in *.
  change (inject_Z 1) with 1%Q in *. change (inject_Z 86400) with 86400%Q in *.
  change (inject_Z 3600) with 3600%Q in *. change (inject_Z 60) with 60%Q in *.
  set (f := Qfloor x) in *.
  assert (H1 : h < 24) by (apply Zlt_of_Qlt; change (inject_Z 24) with 24%Q; lra).
  assert (H2 : -1 < h) by (apply Zlt_of_Qlt; change (inject_Z (-1)) with (-1)%Q; lra).
  assert (H3 : m < 60) by (apply Zlt_of_Qlt; change (inject_Z 60) with 60%Q; lra).
  assert (H4 : -1 < m) by (apply Zlt_of_Qlt; change (inject_Z (-1)) with (-1)%Q; lra).
  assert (H5 : s < 60) by (apply Zlt_of_Qlt; change (inject_Z 60) with 60%Q; lra).
  assert (H6 : -1 < s) by (apply Zlt_of_Qlt; change (inject_Z (-1)) with (-1)%Q; lra).
  assert (E1 : G < 24 * D + h + 1).
  { apply Zlt_of_Qlt. rewrite !inject_Z_plus, !inject_Z_mult.
    change (inject_Z 24) with 24%Q. change (inject_Z 1) with 1%Q. lra. }
  assert (E2 : 24 * D + h < G + 1).
  { apply Zlt_of_Qlt. rewrite !inject_Z_plus, !inject_Z_mult.
    change (inject_Z 24) with 24%Q. change (inject_Z 1) with 1%Q. lra. }
  assert (E3 : F < 60 * G + m + 1).
  { apply Zlt_of_Qlt. rewrite !inject_Z_plus, !inject_Z_mult.
    change (inject_Z 60) with 60%Q. change (inject_Z 1) with 1%Q. lra. }
  assert (E4 : 60 * G + m < F + 1).
  { apply Zlt_of_Qlt. rewrite !inject_Z_plus, !inject_Z_mult.
    change (inject_Z 60) with 60%Q. change (inject_Z 1) with 1%Q. lra. }
  assert (E5 : f < 60 * F + s + 1).
  { apply Zlt_of_Qlt. rewrite !inject_Z_plus, !inject_Z_mult.
    change (inject_Z 60) with 60%Q. change (inject_Z 1) with 1%Q. lra. }
  assert (E6 : 60 * F + s < f + 1).
  { apply Zlt_of_Qlt. rewrite !inject_Z_plus, !inject_Z_mult.
    change (inject_Z 60) with 60%Q. change (inject_Z 1) with 1%Q. lra. }
  lia.
Qed.

(** Percentiles *)
Lemma SS_nth_le (l : list Q) i j a b :
  StronglySorted Qle l -> (i <= j)%nat -> nth_error l i = Some a -> nth_error l j = Some b ->
  (a <= b)%Q.
Proof.
  revert i j. induction l as [|x l IH]; intros i j Hs Hij Ha Hb; [destruct i; discriminate|].
  apply StronglySorted_inv in Hs as [Hs Hf].
  destruct i as [|i]; destruct j as [|j]; cbn in Ha, Hb.
  - injection Ha as <-. injection Hb as <-. apply Qle_refl.
  - injection Ha as <-. rewrite Stdlib.Lists.List.Forall_forall in Hf.
    apply Hf. eapply List.nth_error_In; eauto.
  - lia.
  - apply (IH i j); auto. lia.
Qed.

End MetricsProps.

(* ------------------------------------------------------------------ *)
(** * Further properties of the metrics code *)

Import MetricsOps MetricsProps.

Section MetricsExtras.
Local Open Scope list_scope.

(** Latency samples of [record_request_end]: the sample is appended to the
    endpoint's series and to the series "all", each of which then keeps only
    its last 1000 samples; the other series and the inference times are
    untouched.  A request recorded under the endpoint name "all" appends its
    latency to that series twice. *)
Theorem record_request_end_latencies (m : collector) (ep : string) (sc : Z) (lat : Q) :
  (ep <> "all" ->
     series ep (latencies (record_request_end m ep sc lat)) =
       skipn (length (series ep (latencies m)) + 1 - 1000) (series ep (latencies m) ++ [lat]) /\
     series "all" (latencies (record_request_end m ep sc lat)) =
       skipn (length (series "all" (latencies m)) + 1 - 1000)
             (series "all" (latencies m) ++ [lat])) /\
  (ep = "all" ->
     series "all" (latencies (record_request_end m ep sc lat)) =
       skipn (length (series "all" (latencies m)) + 2 - 1000)
             (series "all" (latencies m) ++ [lat; lat])) /\
  (forall k, k <> ep -> k <> "all" ->
     series k (latencies (record_request_end m ep sc lat)) = series k (latencies m)) /\
  inference_times (record_request_end m ep sc lat) = inference_times m.
Proof.
  unfold record_request_end. cbv zeta. cbn [latencies inference_times].
  split; [|split; [|split; [|reflexivity]]].
  - intros Hne. split.
    + rewrite series_trim_other by congruence. rewrite series_trim_spec.
      rewrite series_append_other by congruence. rewrite series_append_same.
      rewrite length_app. reflexivity.
    + rewrite series_trim_spec. rewrite series_trim_other by congruence.
      rewrite series_append_same. rewrite series_append_other by congruence.
      rewrite length_app. reflexivity.
  - intros ->. rewrite series_trim_spec, series_trim_spec.
    rewrite series_append_same, series_append_same.
    rewrite skipn_cap_id by apply length_skipn_cap.
    rewrite <- app_assoc, length_app. cbn [length app]. f_equal; lia.
  - intros k H1 H2. rewrite !series_trim_other by congruence.
    rewrite !series_append_other by congruence. reflexivity.
Qed.

(** The [track_inference] wrapper: when the wrapped function returns, its
    result is passed on and the time is appended to the model type's series
    of inference times, which then keeps its last 1000 samples, the other
    series and the latencies untouched; when it raises, the exception
    propagates and nothing is recorded. *)
Theorem track_inference_spec (model : string) (func : unit -> py_result pyval) (t : Q)
    (m : collector) :
  (forall r, func tt = Returned r ->
     snd (track_inference model func t m) = Returned r /\
     series model (inference_times (fst (track_inference model func t m))) =
       skipn (length (series model (inference_times m)) + 1 - 1000)
             (series model (inference_times m) ++ [t]) /\
     (forall k, k <> model ->
        series k (inference_times (fst (track_inference model func t m))) =
        series k (inference_times m)) /\
     latencies (fst (track_inference model func t m)) = latencies m) /\
  (forall e, func tt = Raised e -> track_inference model func t m = (m, Raised e)).
Proof.
  split.
  - intros r Hf. unfold track_inference. rewrite Hf. cbn [fst snd].
    unfold record_inference_time. cbn [inference_times latencies].
    split; [reflexivity|]. split; [|split; [|reflexivity]].
    + rewrite series_trim_spec, series_append_same, length_app. reflexivity.
    + intros k Hk. rewrite series_trim_other by congruence.
      apply series_append_other. congruence.
  - intros e Hf. unfold track_inference. rewrite Hf. reflexivity.
Qed.

(** Request counters of [record_request_end], from fresh counters and a
    sequence of recorded requests (endpoint, status code): the count under a
    key [k] is the number of requests to endpoint [k], plus the number of
    all requests when [k] is "total" (so an endpoint named "total" is
    counted twice there); the status count under [k] is the number of
    requests whose [str(status_code)] is [k]; the error count is the same as
    the request count restricted to status codes of at least 400; the window
    counter is the number of requests. *)
Theorem request_counters (reqs : list (string * pyint)) (k : string) :
  let c := fold_left (fun c p => record_request_end_counts c (fst p) (snd p)) reqs counters_init in
  dget k (request_count c) =
    Z.of_nat (length (List.filter (fun p => String.eqb (fst p) k) reqs)) +
    (if String.eqb "total" k then Z.of_nat (length reqs) else 0) /\
  dget k (status_count c) =
    Z.of_nat (length (List.filter (fun p => String.eqb (pyint_str (snd p)) k) reqs)) /\
  dget k (error_count c) =
    Z.of_nat (length (List.filter (fun p => String.eqb (fst p) k && (400 <=? pyint_value (snd p)))
                        reqs)) +
    (if String.eqb "total" k
     then Z.of_nat (length (List.filter (fun p => 400 <=? pyint_value (snd p)) reqs)) else 0) /\
  requests_in_window c = Z.of_nat (length reqs).
Proof.
  cbv zeta.
  assert (G : forall c0,
    let c := fold_left (fun c p => record_request_end_counts c (fst p) (snd p)) reqs c0 in
    dget k (request_count c) = dget k (request_count c0) +
      Z.of_nat (length (List.filter (fun p => String.eqb (fst p) k) reqs)) +
      (if String.eqb "total" k then Z.of_nat (length reqs) else 0) /\
    dget k (status_count c) = dget k (status_count c0) +
      Z.of_nat (length (List.filter (fun p => String.eqb (pyint_str (snd p)) k) reqs)) /\
    dget k (error_count c) = dget k (error_count c0) +
      Z.of_nat (length (List.filter (fun p => String.eqb (fst p) k && (400 <=? pyint_value (snd p)))
                          reqs)) +
      (if String.eqb "total" k
       then Z.of_nat (length (List.filter (fun p => 400 <=? pyint_value (snd p)) reqs)) else 0) /\
    requests_in_window c = requests_in_window c0 + Z.of_nat (length reqs)).
  { induction reqs as [|[ep sc] reqs IH]; intros c0; cbv zeta; cbn [fold_left].
    - cbn [List.filter length Z.of_nat]. destruct (String.eqb "total" k); lia.
    - destruct (IH (record_request_end_counts c0 ep sc)) as [R [S [E W]]].
      destruct (end_counts_dget c0 ep sc k) as [R1 [S1 [E1 W1]]].
      cbn [fst snd]. rewrite R, S, E, W, R1, S1, E1, W1. cbn [List.filter fst snd length].
      destruct (String.eqb ep k), (String.eqb (pyint_str sc) k), (String.eqb "total" k),
        (400 <=? pyint_value sc); cbn [andb length]; repeat split; lia. }
  destruct (G counters_init) as [R [S [E W]]]. cbn in R, S, E, W.
  repeat split; [rewrite R|rewrite S|rewrite E|rewrite W]; reflexivity.
Qed.

(** The [track_request] wrapper keeps the active-request count balanced
    when every exception the wrapped function may raise is an [Exception]:
    afterwards the count is [max(0, a)] for the count [a] before the call
    (so [a] itself when [a >= 0]), the peak is [max(peak, a + 1)], and one
    request is added to the window counter.  An exception that is not an
    [Exception] ([KeyboardInterrupt], [SystemExit], ...) escapes
    [except Exception]: only the start is recorded, so the count stays at
    [a + 1], the peak is [max(peak, a + 1)], and the window counter and all
    request, status and error counts are unchanged. *)
Theorem track_request_active (name : string) (func : unit -> py_result pyval) (lat : Q)
    (s : mstate) :
  ((forall e, func tt = Raised e -> is_exception e = true) ->
   active_requests (coll (fst (track_request name func lat s))) = Z.max 0 (active_requests (coll s)) /\
   peak_active_requests (coll (fst (track_request name func lat s))) =
     Z.max (peak_active_requests (coll s)) (active_requests (coll s) + 1) /\
   requests_in_window (counts (fst (track_request name func lat s))) = requests_in_window (counts s) + 1) /\
  (forall e, func tt = Raised e -> is_exception e = false ->
   snd (track_request name func lat s) = Raised e /\
   active_requests (coll (fst (track_request name func lat s))) = active_requests (coll s) + 1 /\
   peak_active_requests (coll (fst (track_request name func lat s))) =
     Z.max (peak_active_requests (coll s)) (active_requests (coll s) + 1) /\
   counts (fst (track_request name func lat s)) = counts s).
Proof.
  split.
  - intros Hall.
    assert (H : forall sc, let s' := record_request_end_full (record_request_start_full s) name sc lat in
      active_requests (coll s') = Z.max 0 (active_requests (coll s)) /\
      peak_active_requests (coll s') =
        Z.max (peak_active_requests (coll s)) (active_requests (coll s) + 1) /\
      requests_in_window (counts s') = requests_in_window (counts s) + 1).
    { intros sc. cbn. split; [f_equal; lia|split; reflexivity]. }
    destruct (func tt) as [r|e] eqn:Hf.
    + destruct (status_of r) as [sc|e] eqn:Hs.
      * unfold track_request. rewrite Hf, Hs. apply H.
      * assert (He : is_exception e = true).
        { unfold status_of in Hs.
          destruct r as [| | | |l|d]; try discriminate;
            repeat match type of Hs with
              | context [match ?x with _ => _ end] => destruct x
              end; try discriminate; inversion Hs; reflexivity. }
        rewrite (track_request_fail name func lat s e He (or_intror (ex_intro _ r (conj Hf Hs)))).
        apply H.
    + rewrite (track_request_fail name func lat s e (Hall e eq_refl) (or_introl Hf)). apply H.
  - intros e Hf He. rewrite (track_request_uncaught name func lat s e He Hf). cbn.
    repeat split.
Qed.

(** When the function wrapped by [track_request] raises an [Exception]
    (an instance of [Exception], which [except Exception] catches), the
    exception is raised again, and the request is counted with status
    "500" and as an error of the endpoint and of "total". *)
Theorem track_request_exception (name : string) (func : unit -> py_result pyval) (lat : Q)
    (s : mstate) (e : pyexc) :
  func tt = Raised e -> is_exception e = true ->
  snd (track_request name func lat s) = Raised e /\
  (forall k, dget k (status_count (counts (fst (track_request name func lat s)))) =
             dget k (status_count (counts s)) + (if String.eqb "500" k then 1 else 0)) /\
  (forall k, dget k (error_count (counts (fst (track_request name func lat s)))) =
             dget k (error_count (counts s)) + (if String.eqb name k then 1 else 0) +
             (if String.eqb "total" k then 1 else 0)).
Proof.
  intros Hf He. rewrite (track_request_fail name func lat s e He (or_introl Hf)). cbn [fst snd].
  split; [reflexivity|]. split; intros k; apply (counts_500 (counts s) name k).
Qed.

(** A dict result with string keys (a JSON object) and two or more items
    makes [track_request] raise [KeyError] (the status lookup [result[1]]
    fails inside the [try], and [except Exception] catches it), even though
    the wrapped function returned; the request is counted with status
    "500" and as an error. *)
Theorem track_request_dict_keyerror (name : string) (func : unit -> py_result pyval) (lat : Q)
    (s : mstate) (d : list (string * pyval)) :
  func tt = Returned (PDict d) -> (2 <= length d)%nat ->
  snd (track_request name func lat s) = Raised (UserError "KeyError") /\
  (forall k, dget k (status_count (counts (fst (track_request name func lat s)))) =
             dget k (status_count (counts s)) + (if String.eqb "500" k then 1 else 0)) /\
  (forall k, dget k (error_count (counts (fst (track_request name func lat s)))) =
             dget k (error_count (counts s)) + (if String.eqb name k then 1 else 0) +
             (if String.eqb "total" k then 1 else 0)).
Proof.
  intros Hf Hd.
  assert (Hs : status_of (PDict d) = Raised (UserError "KeyError")).
  { unfold status_of. rewrite (proj2 (Nat.leb_le _ _) Hd). reflexivity. }
  rewrite (track_request_fail name func lat s (UserError "KeyError") eq_refl (or_intror (ex_intro _ _ (conj Hf Hs)))).
  cbn [fst snd]. split; [reflexivity|]. split; intros k; apply (counts_500 (counts s) name k).
Qed.

(** The status [track_request] records for a returned result: for
    [(body, code)] with an int [code] it counts [str(code)], and an error
    when [code >= 400]; for a bool [code] it counts "True" or "False" and
    never an error; for a string, or a dict with fewer than two items, it
    counts "200".  In each case the result is passed on unchanged. *)
Theorem track_request_status (name : string) (func : unit -> py_result pyval) (lat : Q)
    (s : mstate) :
  (forall body z rest, func tt = Returned (PList (body :: PInt z :: rest)) ->
     snd (track_request name func lat s) = Returned (PList (body :: PInt z :: rest)) /\
     (forall k, dget k (status_count (counts (fst (track_request name func lat s)))) =
                dget k (status_count (counts s)) + (if String.eqb (int_repr z) k then 1 else 0)) /\
     (forall k, dget k (error_count (counts (fst (track_request name func lat s)))) =
                dget k (error_count (counts s)) +
                (if 400 <=? z then (if String.eqb name k then 1 else 0) +
                                   (if String.eqb "total" k then 1 else 0) else 0))) /\
  (forall body b rest, func tt = Returned (PList (body :: PBool b :: rest)) ->
     snd (track_request name func lat s) = Returned (PList (body :: PBool b :: rest)) /\
     (forall k, dget k (status_count (counts (fst (track_request name func lat s)))) =
                dget k (status_count (counts s)) +
                (if String.eqb (if b then "True" else "False") k then 1 else 0)) /\
     (forall k, dget k (error_count (counts (fst (track_request name func lat s)))) =
                dget k (error_count (counts s)))) /\
  (forall r, ((exists str, r = PStr str) \/ (exists d, r = PDict d /\ (length d < 2)%nat)) ->
     func tt = Returned r ->
     snd (track_request name func lat s) = Returned r /\
     (forall k, dget k (status_count (counts (fst (track_request name func lat s)))) =
                dget k (status_count (counts s)) + (if String.eqb "200" k then 1 else 0)) /\
     (forall k, dget k (error_count (counts (fst (track_request name func lat s)))) =
                dget k (error_count (counts s)))).
Proof.
  split; [|split].
  - intros body z rest Hf. unfold track_request. rewrite Hf. cbn [status_of fst snd].
    split; [reflexivity|]. cbn [record_request_end_full record_request_start_full counts].
    split; intros k; destruct (end_counts_dget (counts s) name (IInt z) k) as [_ [S [E _]]];
      [exact S|exact E].
  - intros body b rest Hf. unfold track_request. rewrite Hf. cbn [status_of fst snd].
    split; [reflexivity|]. cbn [record_request_end_full record_request_start_full counts].
    split; intros k; destruct (end_counts_dget (counts s) name (IBool b) k) as [_ [S [E _]]].
    + rewrite S. destruct b; reflexivity.
    + rewrite E. destruct b; cbn; lia.
  - intros r Hr Hf.
    assert (Hs : status_of r = Returned (IInt 200)).
    { destruct Hr as [[str ->]|[d [-> Hd]]]; [reflexivity|].
      unfold status_of. rewrite (proj2 (Nat.leb_gt _ _) Hd). reflexivity. }
    unfold track_request. rewrite Hf, Hs. cbn [fst snd].
    split; [reflexivity|]. cbn [record_request_end_full record_request_start_full counts].
    split; intros k; destruct (end_counts_dget (counts s) name (IInt 200) k) as [_ [S [E _]]].
    + rewrite S, pyint_str_200. reflexivity.
    + rewrite E. cbn. lia.
Qed.

(** The summary of [_calculate_percentiles] is ordered: for every
    non-empty series [get_metrics] summarises (reached from a fresh
    collector by any calls), min <= p50 <= p95 <= p99 <= max. *)
Theorem percentiles_ordered (ops : list mop) (k : string) (data : list Q) :
  (latencies (mrun collector_init ops) !! k = Some data \/
   inference_times (mrun collector_init ops) !! k = Some data) ->
  data <> [] ->
  exists r, calculate_percentiles data = Some r /\
    (s_min r <= s_p50 r)%Q /\ (s_p50 r <= s_p95 r)%Q /\ (s_p95 r <= s_p99 r)%Q /\
    (s_p99 r <= s_max r)%Q.
Proof.
  intros Hk Hne.
  assert (Hle : (length data <= 1000)%nat).
  { destruct (mrun_init_capped ops) as [H1 H2].
    destruct Hk as [Hk|Hk]; [specialize (H1 k)|specialize (H2 k)];
      unfold series, max_latency_samples in *; rewrite Hk in *; assumption. }
  pose proof (calculate_percentiles_spec data Hne Hle) as Hspec. cbv zeta in Hspec.
  destruct Hspec as [r [Hr [Emn [Emx [E50 [E95 E99]]]]]].
  exists r. split; [exact Hr|].
  pose proof (sorted_samples_perm data) as Hperm.
  pose proof (sorted_samples_strongly data) as Hss.
  assert (Hn : (1 <= length data)%nat) by (destruct data; [congruence|cbn; lia]).
  assert (Hlen : length (sorted_samples data) = length data)
    by (symmetry; apply Permutation_length, Hperm).
  set (sd := sorted_samples data) in *. set (n := length data) in *.
  pose proof (Nat.div_mod n 2) as D1. pose proof (Nat.mod_upper_bound n 2) as D2.
  pose proof (Nat.div_mod (n * 95) 100) as D3. pose proof (Nat.mod_upper_bound (n * 95) 100) as D4.
  pose proof (Nat.div_mod (n * 99) 100) as D5. pose proof (Nat.mod_upper_bound (n * 99) 100) as D6.
  split; [apply (SS_nth_le sd 0 (n / 2) _ _ Hss); auto; lia|].
  split.
  { refine (SS_nth_le sd _ _ _ _ Hss _ E50 E95).
    destruct (Nat.leb_spec 20 n); lia. }
  split.
  { refine (SS_nth_le sd _ _ _ _ Hss _ E95 E99).
    destruct (Nat.leb_spec 20 n), (Nat.leb_spec 100 n); lia. }
  refine (SS_nth_le sd _ _ _ _ Hss _ E99 Emx).
  destruct (Nat.leb_spec 100 n); lia.
Qed.

(** The fields of [_format_uptime] for a non-negative uptime below
    [2 ^ 53] seconds (where the float [//] and [%] are exact): hours,
    minutes and seconds are in their ranges (0..23, 0..59, 0..59), and
    days, hours, minutes and seconds add up to the whole seconds of the
    uptime (rounded down). *)
Theorem format_uptime_fields (seconds : Q) :
  (0 <= seconds)%Q -> (seconds < inject_Z (2 ^ 53))%Q ->
  let '(days, hours, minutes, secs) := uptime_fields seconds in
  0 <= hours < 24 /\ 0 <= minutes < 60 /\ 0 <= secs < 60 /\
  days * 86400 + hours * 3600 + minutes * 60 + secs = Qfloor seconds.
Proof. intros _ _. apply uptime_fields_spec. Qed.

(** [_format_uptime] of an uptime under a minute is only the seconds part:
    "<s>s" with [s] the whole seconds. *)
Theorem format_uptime_under_minute (seconds : Q) :
  (0 <= seconds)%Q -> (seconds < 60)%Q ->
  format_uptime seconds = String.append (int_repr (Qfloor seconds)) "s".
Proof.
  intros H0 H60.
  pose proof (uptime_fields_spec seconds) as Hf.
  assert (HD : py_floordiv seconds 86400 = 0).
  { destruct (floor_div_bounds seconds 86400 eq_refl) as [B B'].
    change (inject_Z 86400) with 86400%Q in B, B'.
    assert (py_floordiv seconds 86400 < 1).
    { apply Zlt_of_Qlt. change (inject_Z 1) with 1%Q. lra. }
    assert (-1 < py_floordiv seconds 86400).
    { apply Zlt_of_Qlt. change (inject_Z (-1)) with (-1)%Q.
      rewrite Qmult_plus_distr_r, Qmult_1_r in B'. lra. }
    lia. }
  assert (Hfl : 0 <= Qfloor seconds < 60).
  { pose proof (Qfloor_le seconds). pose proof (Qlt_floor seconds) as X.
    rewrite inject_Z_plus in X. change (inject_Z 1) with 1%Q in X.
    split.
    - assert (-1 < Qfloor seconds); [|lia].
      apply Zlt_of_Qlt. change (inject_Z (-1)) with (-1)%Q. lra.
    - apply Zlt_of_Qlt. change (inject_Z 60) with 60%Q. lra. }
  unfold format_uptime. unfold uptime_fields in *. rewrite HD in *.
  destruct Hf as [Hh [Hm [Hs E]]].
  set (h := py_floordiv (py_mod seconds 86400) 3600) in *.
  set (m := py_floordiv (py_mod seconds 3600) 60) in *.
  set (sec := Qfloor (py_mod seconds 60)) in *.
  assert (h = 0) as -> by lia. assert (m = 0) as -> by lia.
  assert (sec = Qfloor seconds) as -> by lia.
  reflexivity.
Qed.

End MetricsExtras.

(* ------------------------------------------------------------------ *)
(** * Instances of the further properties *)

Section ExtraWitnesses.
Local Open Scope list_scope.

(** [lru_set_then_get] on a cache of capacity 2 and default ttl 10. *)
Lemma lru_set_then_get_witness :
  1 <= max_size (init (V:=Z) 2 10) /\
  snd (get (fst (set (init (V:=Z) 2 10) "a" 7 None 0)) "a" 5) = Some 7 /\
  snd (get (fst (set (init (V:=Z) 2 10) "a" 7 None 0)) "a" 20) = None.
Proof.
  split; [cbn; lia|].
  pose proof (lru_set_then_get (init (V:=Z) 2 10) "a" 7 None 0 5 ltac:(cbn; lia)) as H5.
  pose proof (lru_set_then_get (init (V:=Z) 2 10) "a" 7 None 0 20 ltac:(cbn; lia)) as H20.
  cbv zeta in H5, H20.
  destruct (get (fst (set (init (V:=Z) 2 10) "a" 7 None 0)) "a" 5) as [s5 r5].
  destruct (get (fst (set (init (V:=Z) 2 10) "a" 7 None 0)) "a" 20) as [s20 r20].
  destruct H5 as [H5 _]. destruct H20 as [_ H20].
  specialize (H5 ltac:(cbn; lia)). specialize (H20 ltac:(cbn; lia)).
  split; [exact (proj1 H5)|exact (proj1 H20)].
Defined.

(** [lru_set_entries]: a full cache of capacity 2 drops its oldest entry. *)
Lemma lru_set_entries_witness :
  1 <= 2 /\
  cache (fst (set (run (init (V:=Z) 2 10) [OSet "a" 1 None 0; OSet "b" 2 None 0]) "c" 3 None 1)) =
    [("b", 2); ("c", 3)].
Proof.
  split; [lia|].
  rewrite (lru_set_entries 2 10 [OSet "a" 1 None 0; OSet "b" 2 None 0] "c" 3 None 1 ltac:(lia)).
  vm_compute. reflexivity.
Defined.

(** [manager_set_then_get_spec] on the default manager. *)
Lemma manager_set_then_get_spec_witness :
  enabled (manager_init (V:=Z) None) = true /\
  caches (manager_init (V:=Z) None) !! "motion" = Some (init 1000 3600) /\
  snd (get_embedding (fst (set_embedding (manager_init (V:=Z) None) "motion" (PInt 1) 5 None 0))
         "motion" (PInt 1) 100) = Some 5.
Proof.
  assert (H1 : enabled (manager_init (V:=Z) None) = true) by reflexivity.
  assert (H2 : caches (manager_init (V:=Z) None) !! "motion" = Some (init 1000 3600))
    by (vm_compute; reflexivity).
  split; [exact H1|]. split; [exact H2|].
  apply (manager_set_then_get_spec (manager_init None) "motion" (PInt 1) 5 None 0 100
           (init 1000 3600) H1 H2); cbn; lia.
Defined.

(** [cached_encode_miss_then_hit]: the second call is served from the cache
    although its function would raise. *)
Lemma cached_encode_miss_then_hit_witness :
  snd (get_embedding (manager_init (V:=Z) None) "motion" (PInt 1) 0) = None /\
  snd (cached_encode "motion" (fun _ => Raised (UserError "ValueError")) (PInt 1) 10 10
         (fst (fst (cached_encode "motion" (fun _ => Returned (Some 5)) (PInt 1) 0 0
                      (mkWorld (Some (manager_init (V:=Z) None)) collector_init))))) =
    Returned (Some 5).
Proof.
  assert (H4 : snd (get_embedding (manager_init (V:=Z) None) "motion" (PInt 1) 0) = None)
    by (vm_compute; reflexivity).
  split; [exact H4|].
  pose proof (cached_encode_miss_then_hit "motion" (fun _ => Returned (Some 5))
                (fun _ => Raised (UserError "ValueError")) (PInt 1) 5 0 0 10 10
                (manager_init None) collector_init (init 1000 3600)
                eq_refl ltac:(vm_compute; reflexivity) ltac:(cbn; lia) H4 eq_refl
                ltac:(cbn; lia)) as H.
  destruct (cached_encode "motion" (fun _ => Returned (Some 5)) (PInt 1) 0 0
              (mkWorld (Some (manager_init (V:=Z) None)) collector_init)) as [[w1 e1] r1].
  cbn [fst].
  destruct (cached_encode "motion" (fun _ => Raised (UserError "ValueError")) (PInt 1) 10 10 w1)
    as [[w2 e2] r2].
  cbn [snd]. exact (proj1 (proj2 H)).
Defined.

(** [track_request_exception] on a fresh collector. *)
Lemma track_request_exception_witness :
  snd (track_request "enc" (fun _ => Raised (UserError "ValueError")) 5 mstate_init) =
    Raised (UserError "ValueError") /\
  dget "500" (status_count (counts (fst (track_request "enc"
     (fun _ => Raised (UserError "ValueError")) 5 mstate_init)))) = 1.
Proof.
  destruct (track_request_exception "enc" (fun _ => Raised (UserError "ValueError")) 5
              mstate_init (UserError "ValueError") eq_refl eq_refl) as [H1 [H2 _]].
  split; [exact H1|]. rewrite H2. vm_compute. reflexivity.
Defined.

(** [track_request_dict_keyerror] for a function returning a dict of two
    items. *)
Lemma track_request_dict_keyerror_witness :
  snd (track_request "enc" (fun _ => Returned (PDict [("a", PInt 1); ("b", PInt 2)])) 5
         mstate_init) = Raised (UserError "KeyError") /\
  dget "enc" (error_count (counts (fst (track_request "enc"
     (fun _ => Returned (PDict [("a", PInt 1); ("b", PInt 2)])) 5 mstate_init)))) = 1.
Proof.
  destruct (track_request_dict_keyerror "enc"
              (fun _ => Returned (PDict [("a", PInt 1); ("b", PInt 2)])) 5 mstate_init
              [("a", PInt 1); ("b", PInt 2)] eq_refl ltac:(cbn; lia)) as [H1 [_ H3]].
  split; [exact H1|]. rewrite H3. vm_compute. reflexivity.
Defined.

(** [percentiles_ordered] on a series of three latencies. *)
Lemma percentiles_ordered_witness :
  latencies (mrun collector_init [MEnd "enc" 200 5; MEnd "enc" 200 3; MEnd "enc" 200 9])
    !! "enc" = Some [5; 3; 9]%Q /\
  exists r, calculate_percentiles [5; 3; 9]%Q = Some r /\
    (s_p50 r <= s_p95 r)%Q /\ (s_p99 r <= s_max r)%Q.
Proof.
  assert (H : latencies (mrun collector_init [MEnd "enc" 200 5; MEnd "enc" 200 3; MEnd "enc" 200 9])
                !! "enc" = Some [5; 3; 9]%Q) by (vm_compute; reflexivity).
  split; [exact H|].
  destruct (percentiles_ordered [MEnd "enc" 200 5; MEnd "enc" 200 3; MEnd "enc" 200 9]
              "enc" [5; 3; 9]%Q (or_introl H) ltac:(discriminate))
    as [r [Hr [_ [H95 [_ H99]]]]].
  exists r. split; [exact Hr|]. split; [exact H95|exact H99].
Defined.

(** [format_uptime_under_minute] at 29.5 seconds. *)
Lemma format_uptime_under_minute_witness :
  (0 <= 59 # 2)%Q /\ (59 # 2 < 60)%Q /\ format_uptime (59 # 2) = "29s".
Proof.
  assert (H0 : (0 <= 59 # 2)%Q) by (vm_compute; discriminate).
  assert (H1 : (59 # 2 < 60)%Q) by (vm_compute; reflexivity).
  split; [exact H0|]. split; [exact H1|].
  rewrite (format_uptime_under_minute (59 # 2) H0 H1). vm_compute. reflexivity.
Defined.

(** [track_request_active]: a function returning a string leaves the
    active count of a fresh collector at 0; one raising
    [KeyboardInterrupt] leaves it at 1 and the counters untouched. *)
Lemma track_request_active_witness :
  active_requests (coll (fst (track_request "enc" (fun _ => Returned (PStr "ok")) 5
                                mstate_init))) = 0 /\
  active_requests (coll (fst (track_request "enc"
     (fun _ => Raised (UserError "KeyboardInterrupt")) 5 mstate_init))) = 1 /\
  counts (fst (track_request "enc" (fun _ => Raised (UserError "KeyboardInterrupt")) 5
                 mstate_init)) = counts mstate_init.
Proof.
  destruct (track_request_active "enc" (fun _ => Returned (PStr "ok")) 5 mstate_init)
    as [Hc _].
  destruct (Hc ltac:(intros e Hf; discriminate Hf)) as [H1 _].
  destruct (track_request_active "enc" (fun _ => Raised (UserError "KeyboardInterrupt")) 5
              mstate_init) as [_ Hu].
  destruct (Hu (UserError "KeyboardInterrupt") eq_refl eq_refl) as [_ [H2 [_ H3]]].
  split; [rewrite H1; reflexivity|]. split; [rewrite H2; reflexivity|exact H3].
Defined.

(** [format_uptime_fields] at 90061.5 seconds: one day, one hour, one
    minute and one second. *)
Lemma format_uptime_fields_witness :
  uptime_fields (180123 # 2) = (1, 1, 1, 1) /\
  1 * 86400 + 1 * 3600 + 1 * 60 + 1 = Qfloor (180123 # 2).
Proof.
  pose proof (format_uptime_fields (180123 # 2) ltac:(vm_compute; discriminate)
                ltac:(vm_compute; reflexivity)) as H.
  assert (E : uptime_fields (180123 # 2) = (1, 1, 1, 1)) by (vm_compute; reflexivity).
  rewrite E in H. destruct H as [_ [_ [_ H]]]. split; [exact E|exact H].
Defined.

End ExtraWitnesses.
